(** * weichspielapparat: the runtime launcher ([src/server/runtime.js])

    A shallow embedding of the launcher of the fernspielapparat runtime:
    the binary resolver, the installer, the environment resolver, the
    process supervisor and the readiness prober, followed by the
    properties that hold of them.

    Strings are sequences of 8-bit code units ([string] of the Standard
    Library); JavaScript objects used as dictionaries are finite maps
    ([gmap string string]); a property read that finds nothing is
    [None], JavaScript's [undefined]. *)

From Stdlib Require Import ZArith String Ascii List Lia Bool DecimalString.
From stdpp Require Import gmap strings list.

Local Open Scope string_scope.
Local Open Scope list_scope.

(** ** JavaScript primitives the launcher relies on *)

Module JS.

(** A value read from an object: a string, or [None] for [undefined]. *)
Definition value := option string.

(** [`${v}`]: template substitution of a value. *)
Definition to_string (v : value) : string :=
  match v with
  | Some s => s
  | None => "undefined"
  end.

(** Truthiness of a string or [undefined]: only the empty string and
    [undefined] are falsy. *)
Definition truthy (v : value) : bool :=
  match v with
  | Some s => negb (s =? "")
  | None => false
  end.

(** Truthiness of an exit code: a number, or [None] for [null] (the
    child was ended by a signal). *)
Definition truthy_code (code : option Z) : bool :=
  match code with
  | Some c => negb (c =? 0)%Z
  | None => false
  end.

(** [`${n}`] for an integer, and for an exit code. *)
Definition number_to_string (n : Z) : string :=
  NilZero.string_of_int (Z.to_int n).

Definition code_to_string (code : option Z) : string :=
  match code with
  | Some c => number_to_string c
  | None => "null"
  end.

(** The double quote character, for messages that contain one. *)
Definition dquote : string := String (ascii_of_nat 34) EmptyString.

(** *** Regular expressions

    The fragment the launcher uses: a sequence of literal characters
    and [.], optionally anchored at the end of the input ([$]) and
    optionally case-insensitive (the [i] flag).  [test] searches for a
    match starting at any position, as [RegExp.prototype.test] does. *)

Inductive atom :=
| Lit (c : ascii)
| Dot.

Record regex := Regex {
  atoms : list atom;
  anchored_end : bool;
  ignore_case : bool
}.

Fixpoint lits (s : string) : list atom :=
  match s with
  | EmptyString => []
  | String c s' => Lit c :: lits s'
  end.

Definition is_line_terminator (c : ascii) : bool :=
  (nat_of_ascii c =? 10)%nat || (nat_of_ascii c =? 13)%nat.

Definition to_lower (c : ascii) : ascii :=
  let n := nat_of_ascii c in
  if (65 <=? n)%nat && (n <=? 90)%nat then ascii_of_nat (n + 32) else c.

Definition atom_matches (ci : bool) (a : atom) (c : ascii) : bool :=
  match a with
  | Lit x => if ci then Ascii.eqb (to_lower x) (to_lower c) else Ascii.eqb x c
  | Dot => negb (is_line_terminator c)
  end.

(** Matches the atoms against a prefix of [s]; returns what follows. *)
Fixpoint match_prefix (ci : bool) (p : list atom) (s : string) : option string :=
  match p with
  | [] => Some s
  | a :: p' =>
      match s with
      | EmptyString => None
      | String c s' => if atom_matches ci a c then match_prefix ci p' s' else None
      end
  end.

Definition match_here (r : regex) (s : string) : bool :=
  match match_prefix (ignore_case r) (atoms r) s with
  | Some rest => if anchored_end r then rest =? "" else true
  | None => false
  end.

Fixpoint test (r : regex) (s : string) : bool :=
  match_here r s ||
  match s with
  | EmptyString => false
  | String _ s' => test r s'
  end.

(** *** [String.prototype.split] with a one-character separator *)

Fixpoint split (sep : ascii) (s : string) : list string :=
  match s with
  | EmptyString => [EmptyString]
  | String c s' =>
      if Ascii.eqb c sep then EmptyString :: split sep s'
      else match split sep s' with
           | w :: ws => String c w :: ws
           | [] => [String c EmptyString]
           end
  end.

(** *** [String.prototype.trim] *)

(** White space and line terminators among the 8-bit code units:
    tab, line feed, vertical tab, form feed, carriage return, space and
    the no-break space. *)
Definition is_white_space (c : ascii) : bool :=
  let n := nat_of_ascii c in
  ((9 <=? n)%nat && (n <=? 13)%nat) || (n =? 32)%nat || (n =? 160)%nat.

Fixpoint trim_start (s : string) : string :=
  match s with
  | EmptyString => EmptyString
  | String c s' => if is_white_space c then trim_start s' else s
  end.

Fixpoint trim_end (s : string) : string :=
  match s with
  | EmptyString => EmptyString
  | String c s' =>
      match trim_end s' with
      | EmptyString => if is_white_space c then EmptyString else String c EmptyString
      | t => String c t
      end
  end.

Definition trim (s : string) : string := trim_end (trim_start s).

(** *** Promises

    A promise is pending or settled; [resolve] and [reject] settle a
    pending promise and do nothing to a settled one. *)

Record Error := mkError { message : string }.

Inductive Promise (A : Type) :=
| Pending
| Fulfilled (a : A)
| Rejected (e : Error).
Arguments Pending {A}.
Arguments Fulfilled {A} a.
Arguments Rejected {A} e.

Definition resolve {A} (a : A) (p : Promise A) : Promise A :=
  match p with
  | Pending => Fulfilled a
  | _ => p
  end.

Definition reject {A} (e : Error) (p : Promise A) : Promise A :=
  match p with
  | Pending => Rejected e
  | _ => p
  end.

Definition is_settled {A} (p : Promise A) : bool :=
  match p with
  | Pending => false
  | _ => true
  end.

End JS.

(** ** The launcher *)

Module Runtime.
Import JS.

(** What the module reads from its host when it is loaded:
    [os.platform()], Electron's [app.getPath('userData')] (which
    [getUserDir] has checked to be non-empty, or the module does not
    load) and Node's [path.dirname]. *)
Class Host := {
  platform : string;
  userData : string;
  dirname : string -> string
}.

(** A reference to an object: the ambient [process.env], or an object
    the launcher allocated. *)
Inductive ref :=
| ProcessEnv
| Obj (n : nat).

Record ChildProcess := Child { pid : nat }.

Record SpawnOptions := {
  opt_env : ref;
  opt_cwd : option string
}.

Record WaitPortParams := {
  wp_host : string;
  wp_port : Z;
  wp_timeout : Z
}.

(** What the launcher does to the outside world, in order. *)
Inductive Action :=
| ASpawn (command : string) (args : list string) (opts : SpawnOptions)
| AAccess (path : string) (mode : Z)
| AReleaseTarballUrl
| ADownloadTarball (url file : string)
| ADecompress (src dest : string)
| AWaitPort (params : WaitPortParams) (deadline : Z)
| AWriteFile (path content : string)
| AConsoleLog (msg : string)
| AConsoleError (msg : string).

(** Events a child process emits. *)
Inductive ChildEvent :=
| StdoutData (data : string)
| StderrData (data : string)
| ErrorEvent (msg : string)
| ExitEvent (code : option Z).

(** An entry of a tar archive: its header's name and its content. *)
Record TarEntry := {
  name : string;
  data : string
}.

(** An archive as the extraction reads it: the entries it yields and,
    when the stream is damaged, the error raised after them. *)
Record Archive := {
  entries : list TarEntry;
  damage : option string
}.

(** What the outside world answers during one launch.  The release
    lookup and the download ([./releases.js], [./github.js]) are outside
    the launcher and are given by the world. *)
Class World := {
  (** events of the child started with [--version] *)
  version_child : list ChildEvent;
  (** [fs.access(path, mode, cb)]: [None] when access is granted, the
      error's message otherwise *)
  fs_access : string -> Z -> option string;
  (** [releaseTarballUrl()] of [./releases.js] *)
  release_url : Promise string;
  (** [downloadTarball(url, file)] of [./github.js] *)
  fetch_tarball : string -> string -> Promise string;
  (** the archive stored at a path *)
  tarball : string -> Archive;
  (** events of the child started in server mode, with the time in
      milliseconds after the spawn at which each is delivered, in
      chronological order *)
  server_child : list (Z * ChildEvent);
  (** whether a connection attempt to a port at a time is accepted *)
  port_accepts : Z -> Z -> bool
}.

(** The mutable state a launch works on. *)
Record State := {
  process_env : gmap string string;
  objs : list (gmap string string);
  disk : gmap string string;
  children : nat;
  trace : list Action
}.

(** Computations that read and update the state. *)
Definition Eff (A : Type) : Type := State -> A * State.

#[export] Instance eff_ret : MRet Eff := fun A a s => (a, s).
#[export] Instance eff_bind : MBind Eff :=
  fun A B f m s => let '(a, s') := m s in f a s'.

Definition emit (a : Action) : Eff unit := fun s =>
  (tt, {| process_env := process_env s; objs := objs s; disk := disk s;
          children := children s; trace := trace s ++ [a] |}).

Definition console_log (msg : string) : Eff unit := emit (AConsoleLog msg).
Definition console_error (msg : string) : Eff unit := emit (AConsoleError msg).

Definition obj_of (s : State) (r : ref) : gmap string string :=
  match r with
  | ProcessEnv => process_env s
  | Obj n => default ∅ (objs s !! n)
  end.

(** [r.k] *)
Definition get_prop (r : ref) (k : string) : Eff value := fun s =>
  (obj_of s r !! k, s).

(** [r.k = v] *)
Definition set_prop (r : ref) (k v : string) : Eff unit := fun s =>
  (tt, match r with
       | ProcessEnv =>
           {| process_env := <[k:=v]> (process_env s); objs := objs s;
              disk := disk s; children := children s; trace := trace s |}
       | Obj n =>
           {| process_env := process_env s;
              objs := alter (insert k v) n (objs s);
              disk := disk s; children := children s; trace := trace s |}
       end).

(** [{ ...r }]: a new object with the properties of [r]. *)
Definition spread (r : ref) : Eff ref := fun s =>
  (Obj (length (objs s)),
   {| process_env := process_env s; objs := objs s ++ [obj_of s r];
      disk := disk s; children := children s; trace := trace s |}).

(** [child_process.spawn]: starts a child and returns its handle. *)
Definition spawn (command : string) (args : list string) (opts : SpawnOptions)
  : Eff ChildProcess := fun s =>
  (Child (children s),
   {| process_env := process_env s; objs := objs s; disk := disk s;
      children := S (children s);
      trace := trace s ++ [ASpawn command args opts] |}).

(** Writing a file of the archive to disk. *)
Definition write_file (path content : string) : Eff unit := fun s =>
  (tt, {| process_env := process_env s; objs := objs s;
          disk := <[path:=content]> (disk s);
          children := children s;
          trace := trace s ++ [AWriteFile path content] |}).

(** Delivering events to a handler, one after the other. *)
Fixpoint deliver {V E} (handler : V -> E -> Eff V) (evs : list E) (v : V) : Eff V :=
  match evs with
  | [] => mret v
  | ev :: evs' => v' ← handler v ev; deliver handler evs' v'
  end.

(** [p.then(onFulfilled, onRejected)] *)
Definition then2 {A B} (p : Promise A)
    (onFulfilled : A -> Eff (Promise B)) (onRejected : Error -> Eff (Promise B))
  : Eff (Promise B) :=
  match p with
  | Pending => mret Pending
  | Fulfilled a => onFulfilled a
  | Rejected e => onRejected e
  end.

(** [p.then(onFulfilled)]: a rejection is passed on. *)
Definition then1 {A B} (p : Promise A) (onFulfilled : A -> Eff (Promise B))
  : Eff (Promise B) :=
  then2 p onFulfilled (fun e => mret (Rejected e)).

(** [p.catch(onRejected)]: a fulfilment is passed on. *)
Definition catch {A} (p : Promise A) (onRejected : Error -> Eff (Promise A))
  : Eff (Promise A) :=
  then2 p (fun a => mret (Fulfilled a)) onRejected.

(** *** The functions of [runtime.js] *)

Section Launcher.
Context {host : Host} {world : World}.

(** [defaultBind]: the host name for the WebSocket URL and the port. *)
Definition defaultBind_host : string := "127.0.0.1".
Definition defaultBind_port : Z := 38397.

Definition wsUrl : string :=
  "ws://" +:+ defaultBind_host +:+ ":" +:+ number_to_string defaultBind_port.

Definition userDir : string := userData.

Definition executableName : string :=
  if platform =? "win32" then "fernspielapparat.exe" else "fernspielapparat".

(** [path.delimiter] *)
Definition delimiter : string :=
  if platform =? "win32" then ";" else ":".

(** [fs.constants.R_OK] and [fs.constants.X_OK] *)
Definition R_OK : Z := 4.
Definition X_OK : Z := 1.

(** A running runtime: the child process and the URL of its server. *)
Record RuntimeHandle := {
  process : ChildProcess;
  url : string
}.

Definition vlcPluginDir : Eff string :=
  if platform =? "darwin" then
    mret "/Applications/VLC.app/Contents/MacOS/plugins"
  else if platform =? "win32" then
    programFiles ← get_prop ProcessEnv "ProgramFiles";
    mret (to_string programFiles +:+ "\VideoLAN\VLC\plugins")
  else
    mret "".

Definition vlcLibDir : Eff string :=
  if platform =? "darwin" then
    mret "/Applications/VLC.app/Contents/MacOS:/Applications/VLC.app/Contents/MacOS/lib"
  else if platform =? "win32" then
    programFiles ← get_prop ProcessEnv "ProgramFiles";
    mret (to_string programFiles +:+ "\VideoLAN\VLC")
  else
    mret "".

(** [/vlc/i] *)
Definition vlcRegex : regex :=
  {| atoms := lits "vlc"; anchored_end := false; ignore_case := true |}.

Definition envForPlatform : Eff ref :=
  env ← spread ProcessEnv;
  (if platform =? "darwin" then
     dyld ← get_prop env "DYLD_LIBRARY_PATH";
     (if negb (test vlcRegex (to_string dyld)) then
        let prefix := if truthy dyld then to_string dyld +:+ delimiter else "" in
        libDir ← vlcLibDir;
        set_prop env "DYLD_LIBRARY_PATH" (prefix +:+ libDir)
      else mret tt);;
     plugins ← get_prop env "VLC_PLUGIN_PATH";
     (if negb (truthy plugins) then
        pluginDir ← vlcPluginDir;
        set_prop env "VLC_PLUGIN_PATH" pluginDir
      else mret tt)
   else if platform =? "win32" then
     path ← get_prop env "Path";
     (if negb (test vlcRegex (to_string path)) then
        libDir ← vlcLibDir;
        set_prop env "Path" (to_string path +:+ delimiter +:+ libDir)
      else mret tt);;
     plugins ← get_prop env "VLC_PLUGIN_PATH";
     (if negb (truthy plugins) then
        pluginDir ← vlcPluginDir;
        set_prop env "VLC_PLUGIN_PATH" pluginDir
      else mret tt)
   else mret tt);;
  mret env.

(** [userBinaryPath]: where the installed binary is stored. *)
Definition userBinaryPath : string := userDir +:+ "/" +:+ executableName.

(** **** The version probe *)

(** The variables the handlers of [fernspielapparatVersionOnPath]
    share: the output collected so far and the promise they settle. *)
Record ProbeVars := {
  output : string;
  probed : Promise string
}.

(** The handlers for the probe child's [data], [error] and [exit]
    events.  On exit with a falsy code the output is split at every
    space; exactly two pieces are required, and the second, trimmed, is
    the version. *)
Definition versionHandler (v : ProbeVars) (ev : ChildEvent) : Eff ProbeVars :=
  match ev with
  | StdoutData d | StderrData d =>
      mret {| output := output v +:+ d; probed := probed v |}
  | ErrorEvent msg =>
      mret {| output := output v;
              probed := reject (mkError ("No fernspielapparat on path, error: " +:+ msg))
                               (probed v) |}
  | ExitEvent code =>
      if truthy_code code then
        mret {| output := output v;
                probed := reject
                  (mkError ("Unsuccessful exit status: " +:+ code_to_string code
                            +:+ ", Output: " +:+ dquote +:+ output v +:+ dquote))
                  (probed v) |}
      else
        let outputWords := split " " (output v) in
        match outputWords with
        | [_; version] =>
            mret {| output := output v; probed := resolve (trim version) (probed v) |}
        | _ =>
            console_log ("Unexpected output from fernspielapparat runtime: " +:+ output v);;
            mret {| output := output v;
                    probed := reject
                      (mkError ("Unexpected output from fernspielapparat runtime: "
                                +:+ output v))
                      (probed v) |}
        end
  end.

Definition fernspielapparatVersionOnPath : Eff (Promise string) :=
  env ← envForPlatform;
  _ ← spawn executableName ["--version"] {| opt_env := env; opt_cwd := None |};
  v ← deliver versionHandler version_child {| output := ""; probed := Pending |};
  mret (probed v).

(** **** The binary resolver *)

Definition fernspielapparatPathInUserDir : Eff (Promise string) :=
  let binaryPath := userBinaryPath in
  let perms := if platform =? "win32" then R_OK else Z.lor R_OK X_OK in
  emit (AAccess binaryPath perms);;
  match fs_access binaryPath perms with
  | Some msg =>
      mret (Rejected (mkError ("Lacking execution permissions for runtime binary at: "
                               +:+ binaryPath +:+ ", error: " +:+ msg)))
  | None =>
      console_log ("using previously downloaded runtime " +:+ binaryPath);;
      mret (Fulfilled binaryPath)
  end.

Definition fernspielapparatOnPath (version : string) : Eff (Promise string) :=
  console_log ("using system-provided fernspielapparat runtime, version " +:+ version);;
  mret (Fulfilled executableName).

Definition getBinary : Eff (Promise string) :=
  p ← fernspielapparatVersionOnPath;
  then2 p fernspielapparatOnPath (fun _ => fernspielapparatPathInUserDir).

(** **** The installer *)

(** [/fernspielapparat$/] and [/fernspielapparat.exe$/] *)
Definition exeRegex : regex :=
  {| atoms := lits "fernspielapparat"; anchored_end := true; ignore_case := false |}.
Definition exeWinRegex : regex :=
  {| atoms := lits "fernspielapparat" ++ [Dot] ++ lits "exe";
     anchored_end := true; ignore_case := false |}.

Definition isExecutable (file : string) : bool :=
  test exeRegex file || test exeWinRegex file.

(** The [ignore] callback: it remembers the last file it let through
    in [binary] and tells the archive reader to skip every other. *)
Definition ignore (file : string) (binary : value) : bool * value :=
  let isExec := isExecutable file in
  (negb isExec, if isExec then Some file else binary).

(** The [map] callback: renames a header that matches; [None] is the
    [null] returned for the others. *)
Definition mapHeader (header : TarEntry) : option TarEntry :=
  if test exeRegex (name header) then
    Some {| name := "fernspielapparat"; data := data header |}
  else if test exeWinRegex (name header) then
    Some {| name := "fernspielapparat.exe"; data := data header |}
  else None.

(** Modelled from the spec: the archive reader behind [decompress]
    (the targz package, not part of the repository).  It scans the
    entries in order; each header goes through [map] (a [null] result
    keeps the header as it is), the destination is the entry's name
    under [dest], [ignore] is asked about the destination, and an entry
    that is not ignored is written there.  Entry names are taken as
    normalised relative paths. *)
Definition extractEntry {V} (dest : string)
    (ignoreFn : string -> V -> bool * V) (mapFn : TarEntry -> option TarEntry)
    (v : V) (e : TarEntry) : Eff V :=
  let header := default e (mapFn e) in
  let file := dest +:+ "/" +:+ name header in
  let '(skip, v') := ignoreFn file v in
  if skip then mret v' else write_file file (data header);; mret v'.

Definition decompress {V} (src dest : string)
    (ignoreFn : string -> V -> bool * V) (mapFn : TarEntry -> option TarEntry)
    (v : V) : Eff (option string * V) :=
  emit (ADecompress src dest);;
  v' ← deliver (extractEntry dest ignoreFn mapFn) (entries (tarball src)) v;
  mret (damage (tarball src), v').

Definition extractExecutableToUserDir (tarPath : string) : Eff (Promise string) :=
  '(err, binary) ← decompress tarPath userDir ignore mapHeader None;
  match err with
  | Some msg =>
      mret (Rejected (mkError ("Failed to decompress release, error: " +:+ msg +:+ ".")))
  | None =>
      if negb (truthy binary) then
        mret (Rejected (mkError "Could not find executable in tarball"))
      else
        console_log ("extracted binary: " +:+ to_string binary);;
        mret (Fulfilled (to_string binary))
  end.

Definition downloadBinary : Eff (Promise string) :=
  emit AReleaseTarballUrl;;
  p ← then1 release_url (fun url =>
        emit (ADownloadTarball url "fernspielapparat.tar.gz");;
        mret (fetch_tarball url "fernspielapparat.tar.gz"));
  then1 p extractExecutableToUserDir.

(** **** The readiness prober *)

(** Modelled from the spec: the port prober (the wait-port package, not
    part of the repository).  It attempts a connection at once and then
    every [wp_timeout] milliseconds while the deadline has not elapsed;
    it fulfils at the first attempt that is accepted and rejects at the
    deadline otherwise.  The result is the time of settlement and
    whether the port was open. *)
Definition attempt_times (interval deadline : Z) : list Z :=
  List.filter (fun t => (t <? deadline)%Z)
    (List.map (fun k => (Z.of_nat k * interval)%Z)
       (seq 0 (S (Z.to_nat (deadline / interval))))).

Definition waitPortOutcome (params : WaitPortParams) (deadline : Z) : Z * bool :=
  match List.find (port_accepts (wp_port params))
          (attempt_times (wp_timeout params) deadline) with
  | Some t => (t, true)
  | None => (deadline, false)
  end.

Definition waitPort (params : WaitPortParams) (deadline : Z) : Eff (Z * bool) :=
  emit (AWaitPort params deadline);;
  mret (waitPortOutcome params deadline).

(** **** The process supervisor *)

(** What [launchServer] reacts to: an event of the child, or the
    settlement of the prober's promise. *)
Inductive LaunchEvent :=
| ChildEv (ev : ChildEvent)
| PortOpen
| PortTimeout.

(** The variables the callbacks of [launchServer] share: the
    [starting] flag and the promise they settle. *)
Record LaunchVars := {
  starting : bool;
  launch : Promise RuntimeHandle
}.

Definition launchHandler (server : ChildProcess) (v : LaunchVars) (ev : LaunchEvent)
  : Eff LaunchVars :=
  match ev with
  | ChildEv (StdoutData d) => console_log d;; mret v
  | ChildEv (StderrData d) => console_error d;; mret v
  | ChildEv (ExitEvent code) =>
      (if truthy_code code then
         console_log ("server exited with code " +:+ code_to_string code)
       else console_log "server exited");;
      if starting v then
        mret {| starting := false;
                launch := reject
                  (mkError ("fernspielapparat unexpected exit at startup with code "
                            +:+ code_to_string code))
                  (launch v) |}
      else mret v
  | ChildEv (ErrorEvent msg) =>
      mret {| starting := starting v;
              launch := reject
                (mkError ("fernspielapparat could not be started, error: " +:+ msg))
                (launch v) |}
  | PortOpen =>
      mret {| starting := starting v;
              launch := resolve {| process := server; url := wsUrl |} (launch v) |}
  | PortTimeout =>
      mret {| starting := starting v;
              launch := reject
                (mkError ("fernspielapparat server not available on port "
                          +:+ number_to_string defaultBind_port
                          +:+ " after 5 seconds, giving up."))
                (launch v) |}
  end.

(** The order in which the callbacks run: the child's events that come
    before the prober settles at time [t], the prober's settlement, and
    the child's later events. *)
Fixpoint timeline (child : list (Z * ChildEvent)) (t : Z) (probe : LaunchEvent)
  : list LaunchEvent :=
  match child with
  | [] => [probe]
  | (t', ev) :: rest =>
      if (t' <? t)%Z then ChildEv ev :: timeline rest t probe
      else probe :: List.map (fun te => ChildEv (snd te)) child
  end.

Definition launchServer (pathToBinary : string) : Eff (Promise RuntimeHandle) :=
  let args := ["-vvvv"; "-s"] in
  env ← envForPlatform;
  let cwd :=
    if truthy (Some pathToBinary)
       && negb (pathToBinary =? "fernspielapparat")
       && negb (pathToBinary =? "fernspielapparat.exe")
    then Some (dirname pathToBinary) else None in
  server ← spawn executableName args {| opt_env := env; opt_cwd := cwd |};
  '(t, open) ← waitPort {| wp_host := defaultBind_host; wp_port := defaultBind_port;
                           wp_timeout := 150 |} 5000;
  v ← deliver (launchHandler server)
        (timeline server_child t (if (open : bool) then PortOpen else PortTimeout))
        {| starting := true; launch := Pending |};
  mret (launch v).

Definition launchRuntime : Eff (Promise RuntimeHandle) :=
  p ← getBinary;
  q ← catch p (fun _ => downloadBinary);
  then1 q launchServer.

End Launcher.

End Runtime.

Import JS Runtime.

(** ** Notions used to state the properties *)

Section Notions.
Context {host : Host} {world : World}.

(** *** Traces *)

(** The actions a computation adds to the trace when run in [s]. *)
Definition emitted {A} (m : Eff A) (s : State) : list Action :=
  drop (length (trace s)) (trace (m s).2).

(** A computation only appends to the trace, and only actions that
    satisfy [P]. *)
Definition appends {A} (P : Action -> Prop) (m : Eff A) : Prop :=
  ∀ s, ∃ acts, trace (m s).2 = trace s ++ acts ∧ Forall P acts.

(** Kinds of actions: an invocation of the installer (its first step,
    the call of [releaseTarballUrl]), a spawn, a spawn in server mode,
    a check of file permissions, a file written. *)
Definition is_install (a : Action) : bool :=
  match a with
  | AReleaseTarballUrl => true
  | _ => false
  end.

Definition is_spawn (a : Action) : bool :=
  match a with
  | ASpawn _ _ _ => true
  | _ => false
  end.

Definition is_server_spawn (a : Action) : bool :=
  match a with
  | ASpawn _ args _ => bool_decide (args = ["-vvvv"; "-s"])
  | _ => false
  end.

Definition is_access (a : Action) : bool :=
  match a with
  | AAccess _ _ => true
  | _ => false
  end.

Definition is_write (a : Action) : bool :=
  match a with
  | AWriteFile _ _ => true
  | _ => false
  end.

Definition no_install (a : Action) : Prop := is_install a = false.

(** *** The environment resolver *)

(** The environment [envForPlatform] returns when called in state [s]. *)
Definition resolvedEnv (s : State) : gmap string string :=
  let '(r, s') := envForPlatform s in obj_of s' r.

(** The variable that holds the platform's search path for dynamic
    libraries, on the platforms where the location of VLC is known, and
    the variable that holds the plugin directory. *)
Definition libraryPathVar : option string :=
  if platform =? "darwin" then Some "DYLD_LIBRARY_PATH"
  else if platform =? "win32" then Some "Path"
  else None.

Definition pluginDirVar : string := "VLC_PLUGIN_PATH".

(** [needle] occurs in [s] up to the case of ASCII letters. *)
Fixpoint lowercase (s : string) : string :=
  match s with
  | EmptyString => EmptyString
  | String c s' => String (to_lower c) (lowercase s')
  end.

Definition contains_ci (needle s : string) : Prop :=
  ∃ pre mid suf, s = pre +:+ mid +:+ suf ∧ lowercase mid = lowercase needle.

(** A variable is set and its value names VLC. *)
Definition mentions_vlc (v : value) : Prop :=
  ∃ s, v = Some s ∧ contains_ci "vlc" s.

(** The overlay [envForPlatform] applies, as a function of the ambient
    environment alone: what [vlcLibDir] and [vlcPluginDir] return, and
    the object that results. *)
Definition libDirFor (amb : gmap string string) : string :=
  if platform =? "darwin" then
    "/Applications/VLC.app/Contents/MacOS:/Applications/VLC.app/Contents/MacOS/lib"
  else if platform =? "win32" then to_string (amb !! "ProgramFiles") +:+ "\VideoLAN\VLC"
  else "".

Definition pluginDirFor (amb : gmap string string) : string :=
  if platform =? "darwin" then "/Applications/VLC.app/Contents/MacOS/plugins"
  else if platform =? "win32" then
    to_string (amb !! "ProgramFiles") +:+ "\VideoLAN\VLC\plugins"
  else "".

Definition overlayPlugins (amb env : gmap string string) : gmap string string :=
  if negb (truthy (env !! "VLC_PLUGIN_PATH"))
  then <["VLC_PLUGIN_PATH" := pluginDirFor amb]> env else env.

Definition overlay (amb : gmap string string) : gmap string string :=
  if platform =? "darwin" then
    let dyld := amb !! "DYLD_LIBRARY_PATH" in
    overlayPlugins amb
      (if negb (test vlcRegex (to_string dyld)) then
         <["DYLD_LIBRARY_PATH" :=
             (if truthy dyld then to_string dyld +:+ delimiter else "")
             +:+ libDirFor amb]> amb
       else amb)
  else if platform =? "win32" then
    let path := amb !! "Path" in
    overlayPlugins amb
      (if negb (test vlcRegex (to_string path)) then
         <["Path" := to_string path +:+ delimiter +:+ libDirFor amb]> amb
       else amb)
  else amb.

(** The state after an object has been allocated. *)
Definition with_obj (s : State) (o : gmap string string) : State :=
  {| process_env := process_env s; objs := objs s ++ [o]; disk := disk s;
     children := children s; trace := trace s |}.

(** *** The version probe *)

(** Events that carry output of the child, and the output they add up to. *)
Definition is_output (ev : ChildEvent) : bool :=
  match ev with
  | StdoutData _ | StderrData _ => true
  | _ => false
  end.

Definition output_of (ev : ChildEvent) : string :=
  match ev with
  | StdoutData d | StderrData d => d
  | _ => ""
  end.

Fixpoint collect (evs : list ChildEvent) : string :=
  match evs with
  | [] => ""
  | ev :: evs' => output_of ev +:+ collect evs'
  end.

(** The number of occurrences of a character. *)
Fixpoint count_char (c : ascii) (s : string) : nat :=
  match s with
  | EmptyString => 0
  | String c' s' => (if Ascii.eqb c' c then 1 else 0) + count_char c s'
  end.

Definition newline : string := String (ascii_of_nat 10) EmptyString.

(** The tokens of a string separated by white space, as the
    specification words it. *)
Definition whitespaceTokens (s : string) : list string := String.words s.

(** What the [exit] handler settles a pending probe to. *)
Definition exit_outcome (code : option Z) (out : string) : Promise string :=
  if truthy_code code then
    Rejected (mkError ("Unsuccessful exit status: " +:+ code_to_string code
                       +:+ ", Output: " +:+ dquote +:+ out +:+ dquote))
  else
    match split " " out with
    | [_; version] => Fulfilled (trim version)
    | _ => Rejected (mkError ("Unexpected output from fernspielapparat runtime: " +:+ out))
    end.

(** The state in which the version probe's child has been started. *)
Definition probe_started (s : State) : State :=
  (spawn executableName ["--version"]
     {| opt_env := Obj (length (objs s)); opt_cwd := None |}
     (with_obj s (overlay (process_env s)))).2.

(** *** The installer *)

(** What [downloadBinary] does once the release has been asked for. *)
Definition downloadRest : Eff (Promise string) :=
  p ← then1 release_url (fun url =>
        emit (ADownloadTarball url "fernspielapparat.tar.gz");;
        mret (fetch_tarball url "fernspielapparat.tar.gz"));
  then1 p extractExecutableToUserDir.

(** A name ends with a suffix, as a proposition and as a test. *)
Definition ends_with (suffix s : string) : Prop := ∃ pre, s = pre +:+ suffix.

Fixpoint ends_withb (suffix s : string) : bool :=
  (s =? suffix) ||
  match s with
  | EmptyString => false
  | String _ s' => ends_withb suffix s'
  end.

(** Where the archive reader puts an entry: under the install directory,
    by the name the [map] callback gave it. *)
Definition destination (e : TarEntry) : string :=
  userDir +:+ "/" +:+ name (default e (mapHeader e)).

(** The entries the [ignore] callback lets through: those whose
    destination passes the recognition test. *)
Definition kept (e : TarEntry) : bool := isExecutable (destination e).

Definition matching (es : list TarEntry) : list TarEntry :=
  filter (fun e => kept e = true) es.

(** The disk after the entries [es] have been written, in order. *)
Definition diskAfter (d : gmap string string) (es : list TarEntry)
  : gmap string string :=
  foldl (fun d e => <[destination e := data e]> d) d es.

(** The [binary] variable after the entries [es] have been let through. *)
Definition binaryAfter (binary : value) (es : list TarEntry) : value :=
  match last es with
  | Some e => Some (destination e)
  | None => binary
  end.

Definition writeActions (es : list TarEntry) : list Action :=
  (fun e => AWriteFile (destination e) (data e)) <$> es.

(** The state after [decompress] has gone through the archive. *)
Definition extracted (tarPath : string) (s : State) : State :=
  {| process_env := process_env s; objs := objs s;
     disk := diskAfter (disk s) (matching (entries (tarball tarPath)));
     children := children s;
     trace := trace s ++ ADecompress tarPath userDir
                :: writeActions (matching (entries (tarball tarPath))) |}.

(** *** The process supervisor and the readiness prober *)

(** Events of a launch that are only logged: output of the child. *)
Definition is_chatter (ev : LaunchEvent) : bool :=
  match ev with
  | ChildEv ev' => is_output ev'
  | _ => false
  end.

(** The parameters [launchServer] passes to the prober, the prober's
    settlement, and the order in which the callbacks of a launch run. *)
Definition probeParams : WaitPortParams :=
  {| wp_host := "127.0.0.1"; wp_port := 38397; wp_timeout := 150 |}.

Definition probeSettlement : Z * bool := waitPortOutcome probeParams 5000.

Definition launchTimeline : list LaunchEvent :=
  timeline server_child probeSettlement.1
    (if probeSettlement.2 then PortOpen else PortTimeout).

(** What is logged when the child exits. *)
Definition exitLog (code : option Z) : string :=
  if truthy_code code then "server exited with code " +:+ code_to_string code
  else "server exited".

(** The error a launch is rejected with when the prober gives up. *)
Definition probeTimeoutError : Error :=
  mkError "fernspielapparat server not available on port 38397 after 5 seconds, giving up.".

(** What the first event that is not mere output settles a launch to. *)
Definition firstOutcome (server : ChildProcess) (ev : LaunchEvent)
  : Promise RuntimeHandle :=
  match ev with
  | ChildEv (ExitEvent code) =>
      Rejected (mkError ("fernspielapparat unexpected exit at startup with code "
                         +:+ code_to_string code))
  | ChildEv (ErrorEvent msg) =>
      Rejected (mkError ("fernspielapparat could not be started, error: " +:+ msg))
  | PortOpen => Fulfilled {| process := server; url := "ws://127.0.0.1:38397" |}
  | PortTimeout => Rejected probeTimeoutError
  | ChildEv _ => Pending
  end.

(** [path.isAbsolute]: a path that starts at a root, by the rules of
    either platform (a separator, or a drive letter, a colon and a
    separator). *)
Definition is_separator (c : ascii) : bool :=
  Ascii.eqb c "/" || Ascii.eqb c "\".



(** The working directory [launchServer] gives its child. *)
Definition cwdFor (pathToBinary : string) : option string :=
  if truthy (Some pathToBinary)
     && negb (pathToBinary =? "fernspielapparat")
     && negb (pathToBinary =? "fernspielapparat.exe")
  then Some (dirname pathToBinary) else None.

(** The state in which [launchServer] has started its child and the
    prober. *)
Definition launchStarted (pathToBinary : string) (s : State) : State :=
  (waitPort probeParams 5000
     (spawn executableName ["-vvvv"; "-s"]
        {| opt_env := Obj (length (objs s)); opt_cwd := cwdFor pathToBinary |}
        (with_obj s (overlay (process_env s)))).2).2.

(** *** Further notions *)


Definition is_wait_port (a : Action) : bool :=
  match a with
  | AWaitPort _ _ => true
  | _ => false
  end.

Definition is_decompress (a : Action) : bool :=
  match a with
  | ADecompress _ _ => true
  | _ => false
  end.

Definition is_download (a : Action) : bool :=
  match a with
  | ADownloadTarball _ _ => true
  | _ => false
  end.

(** The prober's settlement as an event of the launch. *)
Definition probeEvent : LaunchEvent :=
  if probeSettlement.2 then PortOpen else PortTimeout.

(** A computation keeps a relation between the state it starts in and
    the state it ends in. *)
Definition keeps {A} (R : State -> State -> Prop) (m : Eff A) : Prop :=
  ∀ s, R s (m s).2.

(** The store as a launch leaves it: [process.env] is as before, the
    objects that existed are unchanged, and every object allocated
    since holds the resolved environment. *)
Definition ambient_kept (s s' : State) : Prop :=
  process_env s' = process_env s
  ∧ ∃ new, objs s' = objs s ++ new
           ∧ Forall (fun o => o = overlay (process_env s)) new.

Definition disk_kept (s s' : State) : Prop := disk s' = disk s.

(** Nothing but the disk and the trace has changed: no object has been
    allocated or written to and no child has been started. *)
Definition store_kept (s s' : State) : Prop :=
  process_env s' = process_env s ∧ objs s' = objs s ∧ children s' = children s.

(** Actions that start the server: the spawn in server mode and the
    call of the prober. *)
Definition is_server_start (a : Action) : bool :=
  is_server_spawn a || is_wait_port a.

(** The paths the resolver and the installer can hand to
    [launchServer]: the bare name when the version probe resolved,
    otherwise the installed binary or the destination of the last
    entry an archive's extraction let through. *)
Definition routed (s : State) (path : string) : Prop :=
  match (fernspielapparatVersionOnPath s).1 with
  | Pending => False
  | Fulfilled _ => path = executableName
  | Rejected _ =>
      path = userBinaryPath
      ∨ ∃ tarPath e, last (matching (entries (tarball tarPath))) = Some e
                     ∧ path = destination e
  end.

End Notions.

(** ** Example hosts and worlds *)

(** [path.dirname] on POSIX paths without a trailing slash: what comes
    before the last slash. *)
Fixpoint before_last_slash (p : string) : option string :=
  match p with
  | EmptyString => None
  | String c p' =>
      match before_last_slash p' with
      | Some d => Some (String c d)
      | None => if Ascii.eqb c "/" then Some EmptyString else None
      end
  end.

Definition dirname_posix (p : string) : string :=
  match before_last_slash p with
  | Some EmptyString => "/"
  | Some d => d
  | None => "."
  end.

Definition linux_host : Host :=
  {| platform := "linux";
     userData := "/home/u/.config/weichspielapparat";
     dirname := dirname_posix |}.

Definition mac_host : Host :=
  {| platform := "darwin";
     userData := "/Users/u/Library/Application Support/weichspielapparat";
     dirname := dirname_posix |}.

(** A state in which nothing has happened yet. *)
Definition fresh (env : gmap string string) : State :=
  {| process_env := env; objs := []; disk := ∅; children := 0; trace := [] |}.

(** A world with a given probe child, archive and server child, in which
    no binary is installed and the release can be downloaded. *)
Definition world_of (probe : list ChildEvent) (es : list TarEntry)
    (server : list (Z * ChildEvent)) (accepts : Z -> Z -> bool) : World :=
  {| version_child := probe;
     fs_access := fun _ _ => Some "ENOENT: no such file or directory";
     release_url := Fulfilled "https://example.org/fernspielapparat.tar.gz";
     fetch_tarball := fun _ file => Fulfilled ("/tmp/" +:+ file);
     tarball := fun _ => {| entries := es; damage := None |};
     server_child := server;
     port_accepts := accepts |}.

Definition never_accepts : Z -> Z -> bool := fun _ _ => false.

(** The runtime is on the search path and prints its version. *)
Definition world_on_path : World :=
  world_of [StdoutData ("fernspielapparat 0.1.0" +:+ newline); ExitEvent (Some 0%Z)]
    [] [] never_accepts.

(** The runtime prints its name and version with two spaces between
    them, or the version alone after a space. *)
Definition world_two_spaces : World :=
  world_of [StdoutData "fernspielapparat  0.1.0"; ExitEvent (Some 0%Z)]
    [] [] never_accepts.

Definition world_leading_space : World :=
  world_of [StdoutData " 0.1.0"; ExitEvent (Some 0%Z)] [] [] never_accepts.

(** The server listens from 300 milliseconds after its start. *)
Definition world_listening : World :=
  world_of [] [] [(10%Z, StderrData "listening")]
    (fun port t => (port =? 38397)%Z && (300 <=? t)%Z).

(** The server exits with code 1 after 100 milliseconds. *)
Definition world_early_exit : World :=
  world_of [] [] [(100%Z, ExitEvent (Some 1%Z))] never_accepts.

(** Nothing is installed: the probe's child cannot be started, the
    install directory is empty, and the release holds the Linux
    executable. *)
Definition world_nothing_installed : World :=
  world_of [ErrorEvent "spawn fernspielapparat ENOENT"]
    [ {| name := "fernspielapparat-0.1.0/fernspielapparat"; data := "ELF" |} ]
    [(10%Z, StderrData "listening")]
    (fun port t => (port =? 38397)%Z && (300 <=? t)%Z).

(** Archives: a Windows executable alone; a file that is no executable;
    two builds of the executable under the same name; one under each
    name. *)
Definition world_windows_archive : World :=
  world_of [] [ {| name := "dist/fernspielapparat.exe"; data := "MZ" |} ]
    [] never_accepts.

Definition world_odd_archive : World :=
  world_of [] [ {| name := "notes/fernspielapparat-exe"; data := "notes" |} ]
    [] never_accepts.

Definition world_two_builds : World :=
  world_of []
    [ {| name := "debug/fernspielapparat"; data := "debug build" |};
      {| name := "README.md"; data := "read me" |};
      {| name := "release/fernspielapparat"; data := "release build" |} ]
    [] never_accepts.

Definition world_both_names : World :=
  world_of []
    [ {| name := "linux/fernspielapparat"; data := "ELF" |};
      {| name := "windows/fernspielapparat.exe"; data := "MZ" |} ]
    [] never_accepts.

(** [path.dirname] on Windows paths without a trailing separator whose
    directory part is more than a drive: what comes before the last
    separator. *)
Fixpoint before_last_separator (p : string) : option string :=
  match p with
  | EmptyString => None
  | String c p' =>
      match before_last_separator p' with
      | Some d => Some (String c d)
      | None => if is_separator c then Some EmptyString else None
      end
  end.

Definition dirname_win32 (p : string) : string :=
  match before_last_separator p with
  | Some EmptyString => "\"
  | Some d => d
  | None => "."
  end.

Definition win_host : Host :=
  {| platform := "win32";
     userData := "C:\Users\u\AppData\Roaming\weichspielapparat";
     dirname := dirname_win32 |}.

(** Nothing is installed and the release cannot be looked up. *)
Definition world_offline : World :=
  {| version_child := [ErrorEvent "spawn fernspielapparat ENOENT"];
     fs_access := fun _ _ => Some "ENOENT: no such file or directory";
     release_url := Rejected (mkError "getaddrinfo ENOTFOUND api.github.com");
     fetch_tarball := fun _ file => Fulfilled ("/tmp/" +:+ file);
     tarball := fun _ => {| entries := []; damage := None |};
     server_child := [];
     port_accepts := never_accepts |}.

(** The archive holds the executable and ends too early. *)
Definition world_truncated_archive : World :=
  {| version_child := [ErrorEvent "spawn fernspielapparat ENOENT"];
     fs_access := fun _ _ => Some "ENOENT: no such file or directory";
     release_url := Fulfilled "https://example.org/fernspielapparat.tar.gz";
     fetch_tarball := fun _ file => Fulfilled ("/tmp/" +:+ file);
     tarball := fun _ =>
       {| entries := [ {| name := "fernspielapparat-0.1.0/fernspielapparat";
                          data := "ELF" |} ];
          damage := Some "unexpected end of file" |};
     server_child := [];
     port_accepts := never_accepts |}.

(** ** Properties *)

Section Facts.
Context {host : Host} {world : World}.

Ltac eff := unfold mbind, eff_bind, mret, eff_ret in *.

(** *** Strings and regular expressions *)

Lemma sapp_cons c s1 s2 : String c s1 +:+ s2 = String c (s1 +:+ s2).
Proof. reflexivity. Qed.

Lemma sapp_nil_l s : "" +:+ s = s.
Proof. reflexivity. Qed.

Lemma sapp_nil_r s : s +:+ "" = s.
Proof. induction s as [|c s IH]; [reflexivity|]. rewrite sapp_cons, IH. reflexivity. Qed.

Lemma sapp_assoc s1 s2 s3 : (s1 +:+ s2) +:+ s3 = s1 +:+ (s2 +:+ s3).
Proof.
  induction s1 as [|c s1 IH]; [reflexivity|].
  rewrite !sapp_cons, IH. reflexivity.
Qed.

Lemma test_spec r s :
  test r s = true ↔ ∃ pre rest, s = pre +:+ rest ∧ match_here r rest = true.
Proof.
  induction s as [|c s IH]; simpl.
  - rewrite orb_false_r. split.
    + intros H. exists "", "". split; [reflexivity|exact H].
    + intros (pre & rest & Heq & H).
      destruct pre; [|discriminate]. rewrite sapp_nil_l in Heq. subst rest. exact H.
  - rewrite orb_true_iff, IH. split.
    + intros [H|(pre & rest & Heq & H)].
      * exists "", (String c s). split; [reflexivity|exact H].
      * exists (String c pre), rest. rewrite sapp_cons, <- Heq. split; [reflexivity|exact H].
    + intros (pre & rest & Heq & H). destruct pre as [|c' pre].
      * rewrite sapp_nil_l in Heq. subst rest. left. exact H.
      * rewrite sapp_cons in Heq. injection Heq as -> ->. right. eauto.
Qed.

Lemma match_prefix_lits n s suf :
  match_prefix false (lits n) s = Some suf ↔ s = n +:+ suf.
Proof.
  revert s. induction n as [|x n IH]; intros s; simpl.
  - rewrite sapp_nil_l. split; congruence.
  - rewrite sapp_cons. destruct s as [|c s]; [split; discriminate|].
    destruct (Ascii.eqb_spec x c) as [->|Hne].
    + rewrite IH. split; congruence.
    + split; [discriminate|]. intros [= -> _]. congruence.
Qed.

Lemma match_prefix_lits_ci n s suf :
  match_prefix true (lits n) s = Some suf ↔
  ∃ mid, s = mid +:+ suf ∧ lowercase mid = lowercase n.
Proof.
  revert s. induction n as [|x n IH]; intros s; simpl.
  - split.
    + intros [= ->]. exists "". split; reflexivity.
    + intros (mid & -> & Hmid). destruct mid; [reflexivity|discriminate].
  - destruct s as [|c s].
    + split; [discriminate|]. intros (mid & Heq & Hmid).
      destruct mid; discriminate.
    + destruct (Ascii.eqb_spec (to_lower x) (to_lower c)) as [Hc|Hne].
      * rewrite IH. split.
        -- intros (mid & -> & Hmid). exists (String c mid).
           split; [reflexivity|]. simpl. congruence.
        -- intros (mid & Heq & Hmid). destruct mid as [|c' mid]; [discriminate|].
           rewrite sapp_cons in Heq. injection Heq as <- ->.
           simpl in Hmid. injection Hmid as _ Hmid. eauto.
      * split; [discriminate|]. intros (mid & Heq & Hmid).
        destruct mid as [|c' mid]; [discriminate|].
        rewrite sapp_cons in Heq. injection Heq as <- ->.
        simpl in Hmid. injection Hmid as Hc _. congruence.
Qed.

Lemma test_lits_ci n s :
  test {| atoms := lits n; anchored_end := false; ignore_case := true |} s = true
  ↔ contains_ci n s.
Proof.
  rewrite test_spec. unfold match_here, contains_ci; simpl. split.
  - intros (pre & rest & -> & H).
    destruct (match_prefix true (lits n) rest) as [suf|] eqn:E; [|discriminate].
    apply match_prefix_lits_ci in E as (mid & -> & Hmid). eauto.
  - intros (pre & mid & suf & -> & Hmid). exists pre, (mid +:+ suf).
    split; [reflexivity|].
    assert (match_prefix true (lits n) (mid +:+ suf) = Some suf) as ->; [|reflexivity].
    apply match_prefix_lits_ci. eauto.
Qed.

Lemma test_vlc_mentions v :
  test vlcRegex (to_string v) = true ↔ mentions_vlc v.
Proof.
  unfold mentions_vlc. destruct v as [s|]; simpl.
  - unfold vlcRegex. rewrite test_lits_ci. split; [eauto|].
    intros (s' & [= <-] & H). exact H.
  - split; [discriminate|]. intros (s & [=] & _).
Qed.

(** *** The environment resolver *)

Lemma alter_app_last {A} (f : A -> A) (l : list A) (x : A) :
  alter f (length l) (l ++ [x]) = l ++ [f x].
Proof.
  induction l as [|y l IH]; simpl; [reflexivity|].
  f_equal. exact IH.
Qed.

Lemma vlcLibDir_run s : vlcLibDir s = (libDirFor (process_env s), s).
Proof.
  unfold vlcLibDir, libDirFor. eff.
  destruct (platform =? "darwin"); [reflexivity|].
  destruct (platform =? "win32"); reflexivity.
Qed.

Lemma vlcPluginDir_run s : vlcPluginDir s = (pluginDirFor (process_env s), s).
Proof.
  unfold vlcPluginDir, pluginDirFor. eff.
  destruct (platform =? "darwin"); [reflexivity|].
  destruct (platform =? "win32"); reflexivity.
Qed.

Lemma spread_process_env s :
  spread ProcessEnv s = (Obj (length (objs s)), with_obj s (process_env s)).
Proof. reflexivity. Qed.

Lemma obj_of_with_obj s o : obj_of (with_obj s o) (Obj (length (objs s))) = o.
Proof.
  unfold obj_of, with_obj; simpl.
  rewrite lookup_app_r, Nat.sub_diag by lia. reflexivity.
Qed.

Lemma get_prop_with_obj s o k :
  get_prop (Obj (length (objs s))) k (with_obj s o) = (o !! k, with_obj s o).
Proof. unfold get_prop. rewrite obj_of_with_obj. reflexivity. Qed.

Lemma set_prop_with_obj s o k v :
  set_prop (Obj (length (objs s))) k v (with_obj s o) = (tt, with_obj s (<[k:=v]> o)).
Proof.
  unfold set_prop, with_obj; simpl. rewrite alter_app_last. reflexivity.
Qed.

Ltac run_env :=
  repeat first
    [ rewrite get_prop_with_obj
    | rewrite set_prop_with_obj
    | rewrite vlcLibDir_run
    | rewrite vlcPluginDir_run
    | progress cbv beta iota zeta ].

Lemma envForPlatform_run s :
  envForPlatform s = (Obj (length (objs s)), with_obj s (overlay (process_env s))).
Proof.
  unfold envForPlatform, overlay, overlayPlugins. eff.
  rewrite spread_process_env. cbv beta iota zeta.
  destruct (platform =? "darwin"); [|destruct (platform =? "win32"); [|reflexivity]].
  all: run_env.
  all: destruct (negb (test vlcRegex _)); run_env; cbn [process_env with_obj].
  all: match goal with
       | |- context [negb (truthy ?v)] => destruct (negb (truthy v))
       end; run_env; reflexivity.
Qed.

Lemma resolvedEnv_overlay s : resolvedEnv s = overlay (process_env s).
Proof. unfold resolvedEnv. rewrite envForPlatform_run. apply obj_of_with_obj. Qed.

Lemma overlayPlugins_other amb env k :
  k ≠ pluginDirVar → overlayPlugins amb env !! k = env !! k.
Proof.
  intros Hk. unfold overlayPlugins.
  destruct (negb (truthy _)); [|reflexivity].
  apply lookup_insert_ne. unfold pluginDirVar in Hk. congruence.
Qed.

Lemma overlay_other amb k :
  libraryPathVar ≠ Some k → k ≠ pluginDirVar → overlay amb !! k = amb !! k.
Proof.
  unfold overlay, libraryPathVar. intros Hlib Hplug.
  destruct (platform =? "darwin"); [|destruct (platform =? "win32"); [|reflexivity]].
  all: rewrite overlayPlugins_other by assumption.
  all: destruct (negb (test vlcRegex _)); [|reflexivity].
  all: apply lookup_insert_ne; congruence.
Qed.

(** C7: the environment resolver never mutates its input.  After a call
    [process.env] holds what it held before, every object that existed
    is as it was, the result is a newly allocated object (neither
    [process.env] nor an object that existed), and every key other than
    the platform's library search path variable and the plugin directory
    variable maps in the result to exactly its ambient value. *)
Theorem envForPlatform_preserves_ambient (s : State) :
  let '(r, s') := envForPlatform s in
  process_env s' = process_env s
  ∧ (∃ n, r = Obj n ∧ objs s !! n = None ∧ is_Some (objs s' !! n))
  ∧ (∀ n o, objs s !! n = Some o → objs s' !! n = Some o)
  ∧ (∀ k, libraryPathVar ≠ Some k → k ≠ pluginDirVar →
          obj_of s' r !! k = process_env s !! k).
Proof.
  rewrite envForPlatform_run. repeat split.
  - exists (length (objs s)). split; [reflexivity|]. split.
    + apply lookup_ge_None_2. lia.
    + unfold with_obj; simpl. rewrite lookup_app_r, Nat.sub_diag by lia.
      simpl. eauto.
  - intros n o Hn. unfold with_obj; simpl. apply lookup_app_l_Some. exact Hn.
  - intros k Hlib Hplug. rewrite obj_of_with_obj. apply overlay_other; assumption.
Qed.

Lemma overlayPlugins_lookup amb env :
  env !! pluginDirVar = amb !! pluginDirVar →
  (∀ v, amb !! pluginDirVar = Some v → v ≠ "" →
        overlayPlugins amb env !! pluginDirVar = Some v)
  ∧ (amb !! pluginDirVar = None ∨ amb !! pluginDirVar = Some "" →
        overlayPlugins amb env !! pluginDirVar = Some (pluginDirFor amb)).
Proof.
  unfold overlayPlugins, pluginDirVar. intros Henv. split.
  - intros v Hv Hne. rewrite Henv, Hv. simpl.
    destruct (String.eqb_spec v ""); [contradiction|]. simpl.
    rewrite Henv. exact Hv.
  - intros [Hv|Hv]; rewrite Henv, Hv; simpl; apply lookup_insert_eq.
Qed.

(** C8 (as amended): on the platforms where the location of VLC is
    known, a library search path variable that already names VLC (a
    case-insensitive occurrence of "vlc") is left as it is; otherwise
    the default directory is appended, a non-empty existing value and
    the delimiter coming before it; independently the plugin directory
    variable keeps a non-empty value and is set to the default plugin
    path when it is unset or empty.  On any other platform the
    environment is the ambient one. *)
Theorem envForPlatform_overlay (s : State) :
  let amb := process_env s in
  let env := resolvedEnv s in
  match libraryPathVar with
  | Some var =>
      (mentions_vlc (amb !! var) → env !! var = amb !! var)
      ∧ (¬ mentions_vlc (amb !! var) →
           ∃ pre, env !! var = Some (pre +:+ (vlcLibDir s).1)
                  ∧ ∀ v, amb !! var = Some v → v ≠ "" → pre = v +:+ delimiter)
      ∧ (∀ v, amb !! pluginDirVar = Some v → v ≠ "" → env !! pluginDirVar = Some v)
      ∧ (amb !! pluginDirVar = None ∨ amb !! pluginDirVar = Some "" →
           env !! pluginDirVar = Some (vlcPluginDir s).1)
  | None => env = amb
  end.
Proof.
  intros amb env. subst env. rewrite resolvedEnv_overlay.
  rewrite vlcLibDir_run, vlcPluginDir_run. simpl. fold amb.
  unfold libraryPathVar, overlay.
  destruct (platform =? "darwin"); [|destruct (platform =? "win32"); [|reflexivity]].
  - split; [|split].
    + intros Hm. apply test_vlc_mentions in Hm. rewrite Hm. simpl.
      apply overlayPlugins_other. discriminate.
    + intros Hm. destruct (test vlcRegex _) eqn:E.
      { apply test_vlc_mentions in E. contradiction. }
      simpl. rewrite overlayPlugins_other by discriminate.
      eexists. split; [apply lookup_insert_eq|].
      intros v Hv Hne. rewrite Hv. simpl.
      destruct (String.eqb_spec v ""); [contradiction|]. reflexivity.
    + apply overlayPlugins_lookup.
      destruct (negb (test vlcRegex _)); [|reflexivity].
      apply lookup_insert_ne. discriminate.
  - split; [|split].
    + intros Hm. apply test_vlc_mentions in Hm. rewrite Hm. simpl.
      apply overlayPlugins_other. discriminate.
    + intros Hm. destruct (test vlcRegex _) eqn:E.
      { apply test_vlc_mentions in E. contradiction. }
      simpl. rewrite overlayPlugins_other by discriminate.
      exists (to_string (amb !! "Path") +:+ delimiter). split.
      * rewrite lookup_insert_eq, sapp_assoc. reflexivity.
      * intros v Hv _. rewrite Hv. reflexivity.
    + apply overlayPlugins_lookup.
      destruct (negb (test vlcRegex _)); [|reflexivity].
      apply lookup_insert_ne. discriminate.
Qed.

(** *** Computations that only append to the trace *)

Lemma appends_ret {A} P (a : A) : appends P (mret a).
Proof. intros s. exists []. rewrite app_nil_r. split; [reflexivity|constructor]. Qed.

Lemma appends_bind {A B} P (m : Eff A) (f : A -> Eff B) :
  appends P m → (∀ a, appends P (f a)) → appends P (m ≫= f).
Proof.
  intros Hm Hf s. eff. destruct (Hm s) as (acts1 & Ht1 & HP1).
  destruct (m s) as [a s1]; simpl in *.
  destruct (Hf a s1) as (acts2 & Ht2 & HP2).
  exists (acts1 ++ acts2). rewrite Ht2, Ht1, app_assoc.
  split; [reflexivity|]. apply Forall_app; split; assumption.
Qed.

Lemma appends_emit P a : P a → appends P (emit a).
Proof. intros Ha s. exists [a]. split; [reflexivity|]. repeat constructor. exact Ha. Qed.

Lemma appends_silent {A} P (m : Eff A) :
  (∀ s, trace (m s).2 = trace s) → appends P m.
Proof. intros H s. exists []. rewrite app_nil_r. split; [apply H|constructor]. Qed.

Lemma appends_deliver {V E} P (h : V -> E -> Eff V) evs v :
  (∀ v ev, appends P (h v ev)) → appends P (deliver h evs v).
Proof.
  intros Hh. revert v. induction evs as [|ev evs IH]; intros v; simpl.
  - apply appends_ret.
  - apply appends_bind; [apply Hh|]. intros v'. apply IH.
Qed.

Lemma appends_envForPlatform P : appends P envForPlatform.
Proof. apply appends_silent. intros s. rewrite envForPlatform_run. reflexivity. Qed.

Lemma appends_spawn P cmd args opts :
  P (ASpawn cmd args opts) → appends P (spawn cmd args opts).
Proof. intros Ha s. exists [ASpawn cmd args opts]. split; [reflexivity|]. repeat constructor. exact Ha. Qed.

Lemma appends_write_file P path content :
  P (AWriteFile path content) → appends P (write_file path content).
Proof. intros Ha s. exists [AWriteFile path content]. split; [reflexivity|]. repeat constructor. exact Ha. Qed.

(** *** The version probe *)

Lemma versionHandler_settled v ev s :
  is_settled (probed v) = true → probed (versionHandler v ev s).1 = probed v.
Proof.
  intros Hs. destruct (probed v) eqn:E; [discriminate| |].
  all: destruct ev as [d|d|msg|code]; simpl; try (rewrite ?E; reflexivity).
  all: destruct (truthy_code code); simpl; [rewrite E; reflexivity|].
  all: destruct (split " " (output v)) as [|w0 [|w1 [|w2 ws]]]; simpl; rewrite E; reflexivity.
Qed.

Lemma deliver_version_settled evs v s :
  is_settled (probed v) = true → probed (deliver versionHandler evs v s).1 = probed v.
Proof.
  revert v s. induction evs as [|ev evs IH]; intros v s Hs; simpl; [reflexivity|].
  eff. pose proof (versionHandler_settled v ev s Hs) as H1.
  destruct (versionHandler v ev s) as [v1 s1]; simpl in *.
  rewrite IH, H1; [reflexivity|]. rewrite H1. exact Hs.
Qed.

Lemma deliver_version_output pre rest v s :
  Forall (fun ev => is_output ev = true) pre →
  deliver versionHandler (pre ++ rest) v s =
  deliver versionHandler rest
    {| output := output v +:+ collect pre; probed := probed v |} s.
Proof.
  intros Hpre. revert v. induction Hpre as [|ev pre Hev _ IH]; intros v; simpl.
  - rewrite sapp_nil_r. destruct v; reflexivity.
  - eff. destruct ev; try discriminate; simpl; rewrite IH; simpl;
      rewrite sapp_assoc; reflexivity.
Qed.

Lemma versionHandler_exit out code s :
  probed (versionHandler {| output := out; probed := Pending |} (ExitEvent code) s).1
  = exit_outcome code out.
Proof.
  unfold exit_outcome; simpl. destruct (truthy_code code); [reflexivity|].
  destruct (split " " out) as [|w0 [|w1 [|w2 ws]]]; reflexivity.
Qed.

Lemma exit_outcome_settled code out : is_settled (exit_outcome code out) = true.
Proof.
  unfold exit_outcome. destruct (truthy_code code); [reflexivity|].
  destruct (split " " out) as [|w0 [|w1 [|w2 ws]]]; reflexivity.
Qed.

Lemma deliver_version_exit pre code rest s :
  Forall (fun ev => is_output ev = true) pre →
  probed (deliver versionHandler (pre ++ ExitEvent code :: rest)
            {| output := ""; probed := Pending |} s).1
  = exit_outcome code (collect pre).
Proof.
  intros Hpre. rewrite deliver_version_output by exact Hpre.
  cbn [output probed deliver]. rewrite sapp_nil_l. eff.
  pose proof (versionHandler_exit (collect pre) code s) as H1.
  destruct (versionHandler _ (ExitEvent code) s) as [v1 s1]; simpl in *.
  rewrite deliver_version_settled; rewrite H1; [reflexivity|].
  apply exit_outcome_settled.
Qed.

Lemma fernspielapparatVersionOnPath_run s :
  fernspielapparatVersionOnPath s =
  let '(v, s') := deliver versionHandler version_child
                    {| output := ""; probed := Pending |} (probe_started s) in
  (probed v, s').
Proof.
  unfold fernspielapparatVersionOnPath, probe_started. eff.
  rewrite envForPlatform_run. reflexivity.
Qed.

Lemma exit_outcome_fulfilled code out v :
  exit_outcome code out = Fulfilled v ↔
  truthy_code code = false ∧ ∃ w0 w1, split " " out = [w0; w1] ∧ v = trim w1.
Proof.
  unfold exit_outcome. destruct (truthy_code code).
  - split; [discriminate|]. intros [[=] _].
  - destruct (split " " out) as [|w0 [|w1 [|w2 ws]]].
    1, 2, 4: split; [discriminate|intros (_ & ? & ? & [=] & _)].
    split.
    + intros [= <-]. eauto.
    + intros (_ & ? & ? & [= _ <-] & ->). reflexivity.
Qed.

Lemma deliver_version_fulfilled_inv evs out s v :
  probed (deliver versionHandler evs {| output := out; probed := Pending |} s).1
  = Fulfilled v →
  ∃ pre code rest, evs = pre ++ ExitEvent code :: rest
    ∧ Forall (fun ev => is_output ev = true) pre
    ∧ exit_outcome code (out +:+ collect pre) = Fulfilled v.
Proof.
  revert out s. induction evs as [|ev evs IH]; intros out s; simpl; [discriminate|].
  eff. destruct ev as [d|d|msg|code].
  - simpl. intros H. apply IH in H as (pre & code & rest & -> & Hpre & Hout).
    exists (StdoutData d :: pre), code, rest. split; [reflexivity|].
    split; [constructor; [reflexivity|exact Hpre]|].
    simpl. rewrite <- sapp_assoc. exact Hout.
  - simpl. intros H. apply IH in H as (pre & code & rest & -> & Hpre & Hout).
    exists (StderrData d :: pre), code, rest. split; [reflexivity|].
    split; [constructor; [reflexivity|exact Hpre]|].
    simpl. rewrite <- sapp_assoc. exact Hout.
  - simpl. rewrite deliver_version_settled by reflexivity. discriminate.
  - pose proof (versionHandler_exit out code s) as H1.
    destruct (versionHandler _ (ExitEvent code) s) as [v1 s1]; simpl in *.
    rewrite deliver_version_settled; rewrite H1; [|apply exit_outcome_settled].
    intros H. exists [], code, evs. split; [reflexivity|]. split; [constructor|].
    simpl. rewrite sapp_nil_r. exact H.
Qed.

Lemma split_length sep s : length (split sep s) = S (count_char sep s).
Proof.
  induction s as [|c s IH]; simpl; [reflexivity|].
  destruct (Ascii.eqb c sep); simpl; [rewrite IH; reflexivity|].
  destruct (split sep s); simpl in *; [discriminate|exact IH].
Qed.

Lemma sapp_last_inv u c : u +:+ String c "" ≠ "".
Proof. destruct u; discriminate. Qed.

Lemma trim_end_last s u c :
  trim_end s = u +:+ String c "" → is_white_space c = false.
Proof.
  revert u. induction s as [|a s IH]; intros u; simpl.
  - intros H. symmetry in H. apply sapp_last_inv in H. contradiction.
  - destruct (trim_end s) as [|b t] eqn:E.
    + destruct (is_white_space a) eqn:Ha.
      * intros H. symmetry in H. apply sapp_last_inv in H. contradiction.
      * destruct u as [|a' u]; [intros [= <-]; exact Ha|].
        rewrite sapp_cons. intros [= _ H]. symmetry in H.
        apply sapp_last_inv in H. contradiction.
    + destruct u as [|a' u]; [discriminate|].
      rewrite sapp_cons. intros [= _ H]. apply (IH u). exact H.
Qed.

Lemma trim_end_first s c u : trim_end s = String c u → ∃ u', s = String c u'.
Proof.
  destruct s as [|a s]; simpl; [discriminate|].
  destruct (trim_end s); [destruct (is_white_space a); [discriminate|]|];
    intros [= <- _]; eauto.
Qed.

Lemma trim_start_first s c u : trim_start s = String c u → is_white_space c = false.
Proof.
  induction s as [|a s IH]; simpl; [discriminate|].
  destruct (is_white_space a) eqn:Ha; [exact IH|]. intros [= <- _]. exact Ha.
Qed.

Lemma trim_ends s :
  (∀ u c, trim s = u +:+ String c "" → is_white_space c = false)
  ∧ (∀ c u, trim s = String c u → is_white_space c = false).
Proof.
  unfold trim. split.
  - intros u c. apply trim_end_last.
  - intros c u H. apply trim_end_first in H as [u' H].
    apply trim_start_first in H. exact H.
Qed.

Lemma appends_versionHandler P v ev :
  (∀ msg, P (AConsoleLog msg)) → appends P (versionHandler v ev).
Proof.
  intros HP. destruct ev as [d|d|msg|code]; simpl; try apply appends_ret.
  destruct (truthy_code code); [apply appends_ret|].
  destruct (split " " (output v)) as [|w0 [|w1 [|w2 ws]]];
    try apply appends_ret;
    (apply appends_bind; [apply appends_emit, HP|intros _; apply appends_ret]).
Qed.

Lemma appends_fernspielapparatVersionOnPath P :
  (∀ opts, P (ASpawn executableName ["--version"] opts)) →
  (∀ msg, P (AConsoleLog msg)) →
  appends P fernspielapparatVersionOnPath.
Proof.
  intros Hspawn Hlog. unfold fernspielapparatVersionOnPath.
  apply appends_bind; [apply appends_envForPlatform|]. intros env.
  apply appends_bind; [apply appends_spawn, Hspawn|]. intros _.
  apply appends_bind; [|intros v; apply appends_ret].
  apply appends_deliver. intros v ev. apply appends_versionHandler, Hlog.
Qed.

Lemma getBinary_run s :
  getBinary s =
  then2 (fernspielapparatVersionOnPath s).1 fernspielapparatOnPath
    (fun _ => fernspielapparatPathInUserDir) (fernspielapparatVersionOnPath s).2.
Proof.
  unfold getBinary. eff. destruct (fernspielapparatVersionOnPath s); reflexivity.
Qed.

(** C5 (as amended): when the probe child's output is followed by its
    exit, the version probe resolves if and only if the exit code is
    falsy (zero, or none) and the combined output, split at every single
    space character, has exactly two pieces (it holds exactly one
    space); the second piece, trimmed, is the version, and the resolver
    then uses the bare executable name without checking the install
    directory.  A truthy exit code and any other number of pieces are
    rejected with an error of their own, and the resolver goes on with
    the check of the install directory. *)
Theorem version_probe_outcome (pre rest : list ChildEvent) (code : option Z) (s : State) :
  version_child = pre ++ ExitEvent code :: rest →
  Forall (fun ev => is_output ev = true) pre →
  let out := collect pre in
  let probe := (fernspielapparatVersionOnPath s).1 in
  (∀ v, probe = Fulfilled v ↔
        truthy_code code = false ∧ ∃ w0 w1, split " " out = [w0; w1] ∧ v = trim w1)
  ∧ (length (split " " out) = 2 ↔ count_char " " out = 1)
  ∧ (truthy_code code = true →
       probe = Rejected (mkError ("Unsuccessful exit status: " +:+ code_to_string code
                                  +:+ ", Output: " +:+ dquote +:+ out +:+ dquote)))
  ∧ (truthy_code code = false → length (split " " out) ≠ 2 →
       probe = Rejected (mkError ("Unexpected output from fernspielapparat runtime: "
                                  +:+ out)))
  ∧ (∀ v, probe = Fulfilled v →
          (getBinary s).1 = Fulfilled executableName
          ∧ Forall (fun a => is_access a = false) (emitted getBinary s))
  ∧ (∀ e, probe = Rejected e →
          getBinary s = fernspielapparatPathInUserDir (fernspielapparatVersionOnPath s).2).
Proof.
  intros Hev Hpre out probe.
  assert (Hprobe : probe = exit_outcome code out).
  { subst probe. rewrite fernspielapparatVersionOnPath_run, Hev.
    pose proof (deliver_version_exit pre code rest (probe_started s) Hpre) as H.
    destruct (deliver versionHandler _ _ _); exact H. }
  split; [|split; [|split; [|split; [|split]]]].
  - intros v. rewrite Hprobe. apply exit_outcome_fulfilled.
  - rewrite split_length. lia.
  - intros Hc. rewrite Hprobe. unfold exit_outcome. rewrite Hc. reflexivity.
  - intros Hc Hlen. rewrite Hprobe. unfold exit_outcome. rewrite Hc.
    destruct (split " " out) as [|w0 [|w1 [|w2 ws]]]; try reflexivity.
    simpl in Hlen. contradiction.
  - intros v Hv. rewrite getBinary_run. fold probe. rewrite Hv. simpl. eff.
    split.
    { reflexivity. }
    destruct (appends_fernspielapparatVersionOnPath
                (fun a => is_access a = false)
                ltac:(reflexivity) ltac:(reflexivity) s) as (acts & Ht & Hacts).
    unfold emitted. rewrite getBinary_run. fold probe. rewrite Hv.
    unfold then2, fernspielapparatOnPath, console_log, emit. eff. simpl.
    rewrite Ht, <- app_assoc, drop_app_length.
    apply Forall_app. split; [exact Hacts|]. repeat constructor.
  - intros e He. rewrite getBinary_run. fold probe. rewrite He. reflexivity.
Qed.

(** C10: on a successful version probe the child's output, collected up
    to its exit, splits at the space into two pieces, and the resolved
    version is the second piece with leading and trailing white space
    removed: it neither starts nor ends with a white space character, so
    it never ends with the newline that closes the child's output. *)
Theorem resolved_version_trimmed (s : State) (v : string) :
  (fernspielapparatVersionOnPath s).1 = Fulfilled v →
  (∃ pre code rest w0 w1,
      version_child = pre ++ ExitEvent code :: rest
      ∧ Forall (fun ev => is_output ev = true) pre
      ∧ split " " (collect pre) = [w0; w1]
      ∧ v = trim w1)
  ∧ (∀ u c, v = u +:+ String c "" → is_white_space c = false)
  ∧ (∀ c u, v = String c u → is_white_space c = false)
  ∧ (∀ u, v ≠ u +:+ newline).
Proof.
  intros Hv. rewrite fernspielapparatVersionOnPath_run in Hv.
  assert (H : probed (deliver versionHandler version_child
                        {| output := ""; probed := Pending |} (probe_started s)).1
              = Fulfilled v).
  { destruct (deliver versionHandler _ _ _); exact Hv. }
  apply deliver_version_fulfilled_inv in H as (pre & code & rest & Hev & Hpre & Hout).
  rewrite sapp_nil_l in Hout.
  apply exit_outcome_fulfilled in Hout as (_ & w0 & w1 & Hsplit & ->).
  destruct (trim_ends w1) as [Hlast Hfirst].
  split; [|split; [|split]].
  - exists pre, code, rest, w0, w1. auto.
  - exact Hlast.
  - exact Hfirst.
  - intros u Hu. apply Hlast in Hu. discriminate.
Qed.

(** *** The resolver's fallback and the installer *)

Ltac appends_step :=
  first
    [ apply appends_ret
    | apply appends_envForPlatform
    | apply appends_emit; reflexivity
    | apply appends_spawn; reflexivity
    | apply appends_write_file; reflexivity
    | apply appends_deliver; intros ? ?
    | apply appends_bind; [|intros ?]
    | match goal with
      | |- appends _ (match ?x with _ => _ end) => destruct x
      end ].

Ltac appends_tac := repeat appends_step.

Lemma appends_launchServer path : appends no_install (launchServer path).
Proof.
  unfold launchServer, launchHandler, waitPort, console_log, console_error,
    no_install.
  appends_tac.
Qed.

Lemma appends_extractExecutableToUserDir tarPath :
  appends no_install (extractExecutableToUserDir tarPath).
Proof.
  unfold extractExecutableToUserDir, decompress, extractEntry, console_log,
    no_install.
  appends_tac.
Qed.

Lemma appends_downloadRest : appends no_install downloadRest.
Proof.
  unfold downloadRest, then1, then2.
  apply appends_bind.
  - destruct release_url; unfold no_install; appends_tac.
  - intros p. destruct p; try apply appends_ret.
    apply appends_extractExecutableToUserDir.
Qed.

Lemma launchRuntime_run s :
  launchRuntime s =
  match (getBinary s).1 with
  | Pending => (Pending, (getBinary s).2)
  | Fulfilled path => launchServer path (getBinary s).2
  | Rejected _ =>
      let '(q, s2) := downloadRest (emit AReleaseTarballUrl (getBinary s).2).2 in
      then1 q launchServer s2
  end.
Proof.
  unfold launchRuntime, downloadRest. eff.
  destruct (getBinary s) as [[|path|e] s1]; reflexivity.
Qed.

Lemma appends_then1_launchServer q : appends no_install (then1 q launchServer).
Proof.
  unfold then1, then2. destruct q; try apply appends_ret.
  apply appends_launchServer.
Qed.

Lemma emitted_of {A} (m : Eff A) s acts :
  trace (m s).2 = trace s ++ acts → emitted m s = acts.
Proof. intros H. unfold emitted. rewrite H. apply drop_app_length. Qed.

Lemma perms_bits :
  let perms := if platform =? "win32" then R_OK else Z.lor R_OK X_OK in
  Z.land perms R_OK = R_OK
  ∧ Z.land perms X_OK = if platform =? "win32" then 0%Z else X_OK.
Proof. destruct (platform =? "win32"); split; reflexivity. Qed.

(** C6: the resolver's fallback and the installer.  The permissions the
    resolver asks for always include reading, and executing exactly on
    the platforms other than Windows.  If the version probe resolves,
    the resolver yields the bare executable name and the installer is
    not invoked.  If the probe is rejected, the fixed path in the
    install directory is checked for these permissions; when the check
    succeeds the resolver yields that path and the installer is not
    invoked; when it fails the installer is invoked exactly once, after
    which no further invocation follows and before which no spawn in
    server mode has been made. *)
Theorem launchRuntime_fallback (s : State) :
  let probe := (fernspielapparatVersionOnPath s).1 in
  let perms := if platform =? "win32" then R_OK else Z.lor R_OK X_OK in
  let acts := emitted launchRuntime s in
  trace (launchRuntime s).2 = trace s ++ acts
  ∧ Z.land perms R_OK = R_OK
  ∧ Z.land perms X_OK = (if platform =? "win32" then 0%Z else X_OK)
  ∧ match probe with
    | Pending => Forall (fun a => is_install a = false) acts
    | Fulfilled _ =>
        (getBinary s).1 = Fulfilled executableName
        ∧ Forall (fun a => is_install a = false) acts
    | Rejected _ =>
        AAccess userBinaryPath perms ∈ acts
        ∧ match fs_access userBinaryPath perms with
          | None =>
              (getBinary s).1 = Fulfilled userBinaryPath
              ∧ Forall (fun a => is_install a = false) acts
          | Some _ =>
              ∃ pre post, acts = pre ++ AReleaseTarballUrl :: post
                ∧ Forall (fun a => is_install a = false) pre
                ∧ Forall (fun a => is_server_spawn a = false) pre
                ∧ Forall (fun a => is_install a = false) post
          end
    end.
Proof.
  intros probe perms acts.
  destruct (appends_fernspielapparatVersionOnPath
              (fun a => is_install a = false ∧ is_server_spawn a = false)
              ltac:(intros; split; reflexivity) ltac:(intros; split; reflexivity) s)
    as (a0 & Ht0 & Ha0).
  assert (Ha0i : Forall (fun a => is_install a = false) a0).
  { eapply Forall_impl; [exact Ha0|]. intros a [H _]; exact H. }
  assert (Ha0s : Forall (fun a => is_server_spawn a = false) a0).
  { eapply Forall_impl; [exact Ha0|]. intros a [_ H]; exact H. }
  pose proof perms_bits as [HR HX]. fold perms in HR, HX.
  cut (∃ acts0, trace (launchRuntime s).2 = trace s ++ acts0 ∧
         match probe with
         | Pending => Forall (fun a => is_install a = false) acts0
         | Fulfilled _ =>
             (getBinary s).1 = Fulfilled executableName
             ∧ Forall (fun a => is_install a = false) acts0
         | Rejected _ =>
             AAccess userBinaryPath perms ∈ acts0
             ∧ match fs_access userBinaryPath perms with
               | None =>
                   (getBinary s).1 = Fulfilled userBinaryPath
                   ∧ Forall (fun a => is_install a = false) acts0
               | Some _ =>
                   ∃ pre post, acts0 = pre ++ AReleaseTarballUrl :: post
                     ∧ Forall (fun a => is_install a = false) pre
                     ∧ Forall (fun a => is_server_spawn a = false) pre
                     ∧ Forall (fun a => is_install a = false) post
               end
         end).
  { intros (acts0 & Ht & H). subst acts.
    rewrite (emitted_of _ _ _ Ht). auto. }
  rewrite launchRuntime_run, getBinary_run. fold probe.
  destruct probe as [|v|e] eqn:Hprobe; simpl.
  - exists a0. split; [exact Ht0|exact Ha0i].
  - unfold fernspielapparatOnPath, console_log, emit. eff. simpl.
    match goal with
    | |- context [launchServer ?p ?st] =>
        destruct (appends_launchServer p st) as (a2 & Ht2 & Ha2)
    end.
    simpl in Ht2. eexists. split.
    + rewrite Ht2, Ht0, <- !app_assoc. reflexivity.
    + split; [reflexivity|].
      apply Forall_app; split; [exact Ha0i|].
      apply Forall_app; split; [repeat constructor|exact Ha2].
  - unfold fernspielapparatPathInUserDir. fold perms.
    unfold console_log, emit. eff. simpl.
    destruct (fs_access userBinaryPath perms) as [msg|] eqn:Hacc; simpl.
    + match goal with
      | |- context [downloadRest ?st] =>
          destruct (appends_downloadRest st) as (a2 & Ht2 & Ha2);
          destruct (downloadRest st) as [q s2]
      end.
      destruct (appends_then1_launchServer q s2) as (a3 & Ht3 & Ha3).
      simpl in Ht2. exists ((a0 ++ [AAccess userBinaryPath perms])
                             ++ AReleaseTarballUrl :: (a2 ++ a3)).
      split.
      { rewrite Ht3, Ht2, Ht0, <- !app_assoc. reflexivity. }
      split.
      { rewrite !elem_of_app. left. right. apply list_elem_of_here. }
      eexists _, _. split; [reflexivity|].
      split; [apply Forall_app; split; [exact Ha0i|repeat constructor]|].
      split; [apply Forall_app; split; [exact Ha0s|repeat constructor]|].
      apply Forall_app; split; assumption.
    + match goal with
      | |- context [launchServer ?p ?st] =>
          destruct (appends_launchServer p st) as (a2 & Ht2 & Ha2)
      end.
      simpl in Ht2. eexists. split.
      { rewrite Ht2, Ht0, <- !app_assoc. reflexivity. }
      split.
      { rewrite !elem_of_app. right. left. apply list_elem_of_here. }
      split; [reflexivity|].
      repeat (apply Forall_app; split); try assumption; repeat constructor.
Qed.

(** *** The process supervisor and the readiness prober *)

Lemma launchServer_run path s :
  launchServer path s =
  let '(v, s') := deliver (launchHandler (Child (children s))) launchTimeline
                    {| starting := true; launch := Pending |}
                    (launchStarted path s) in
  (launch v, s').
Proof.
  unfold launchServer, launchStarted, launchTimeline, probeSettlement. eff.
  rewrite envForPlatform_run. cbv beta iota zeta.
  unfold waitPort, spawn, emit. eff. simpl.
  change {| wp_host := defaultBind_host; wp_port := defaultBind_port;
            wp_timeout := 150 |} with probeParams.
  destruct (waitPortOutcome probeParams 5000) as [t open]. reflexivity.
Qed.

Lemma launchStarted_trace path s :
  trace (launchStarted path s) =
  trace s ++ [ASpawn executableName ["-vvvv"; "-s"]
                {| opt_env := Obj (length (objs s)); opt_cwd := cwdFor path |};
              AWaitPort probeParams 5000].
Proof. unfold launchStarted; simpl. rewrite <- app_assoc. reflexivity. Qed.

Lemma appends_launchHandler P server v ev :
  (∀ msg, P (AConsoleLog msg)) → (∀ msg, P (AConsoleError msg)) →
  appends P (launchHandler server v ev).
Proof.
  intros Hlog Herr. unfold launchHandler, console_log, console_error.
  destruct ev as [[d|d|msg|code]| |]; try apply appends_ret.
  - apply appends_bind; [apply appends_emit, Hlog|]. intros _. apply appends_ret.
  - apply appends_bind; [apply appends_emit, Herr|]. intros _. apply appends_ret.
  - apply appends_bind.
    + destruct (truthy_code code); apply appends_emit, Hlog.
    + intros _. destruct (starting v); apply appends_ret.
Qed.

Lemma launchHandler_settled server v ev s :
  is_settled (launch v) = true → launch (launchHandler server v ev s).1 = launch v.
Proof.
  intros Hs. destruct (launch v) eqn:E; [discriminate| |].
  all: destruct ev as [[d|d|msg|code]| |]; simpl; rewrite ?E; try reflexivity.
  all: eff; unfold console_log, emit; destruct (truthy_code code); simpl;
    destruct (starting v); simpl; rewrite ?E; reflexivity.
Qed.

Lemma deliver_launch_settled server evs v s :
  is_settled (launch v) = true →
  launch (deliver (launchHandler server) evs v s).1 = launch v.
Proof.
  revert v s. induction evs as [|ev evs IH]; intros v s Hs; simpl; [reflexivity|].
  eff. pose proof (launchHandler_settled server v ev s Hs) as H1.
  destruct (launchHandler server v ev s) as [v1 s1]; simpl in *.
  rewrite IH, H1; [reflexivity|]. rewrite H1. exact Hs.
Qed.

Lemma launchHandler_chatter server v ev s :
  is_chatter ev = true → (launchHandler server v ev s).1 = v.
Proof. destruct ev as [[d|d|msg|code]| |]; try discriminate; reflexivity. Qed.

Lemma deliver_launch_chatter server pre rest v s :
  Forall (fun ev => is_chatter ev = true) pre →
  ∃ s', deliver (launchHandler server) (pre ++ rest) v s
        = deliver (launchHandler server) rest v s'.
Proof.
  intros Hpre. revert s. induction Hpre as [|ev pre Hev _ IH]; intros s; simpl.
  - eauto.
  - eff. pose proof (launchHandler_chatter server v ev s Hev) as H1.
    destruct (launchHandler server v ev s) as [v1 s1]; simpl in H1. subst v1.
    apply IH.
Qed.

Lemma launchHandler_first server ev s :
  launch (launchHandler server {| starting := true; launch := Pending |} ev s).1
  = firstOutcome server ev.
Proof.
  destruct ev as [[d|d|msg|code]| |]; try reflexivity.
  simpl. eff. unfold console_log, emit. destruct (truthy_code code); reflexivity.
Qed.

Lemma deliver_launch_first server pre ev post s :
  Forall (fun e => is_chatter e = true) pre →
  is_chatter ev = false →
  launch (deliver (launchHandler server) (pre ++ ev :: post)
            {| starting := true; launch := Pending |} s).1
  = firstOutcome server ev.
Proof.
  intros Hpre Hev.
  destruct (deliver_launch_chatter server pre (ev :: post)
              {| starting := true; launch := Pending |} s Hpre) as [s' ->].
  simpl. eff. pose proof (launchHandler_first server ev s') as H1.
  destruct (launchHandler server _ ev s') as [v1 s1]; simpl in *.
  rewrite deliver_launch_settled; rewrite H1; [reflexivity|].
  destruct ev as [[d|d|msg|code]| |]; try reflexivity; discriminate.
Qed.

Lemma deliver_launch_exit_logged server evs code v s :
  ChildEv (ExitEvent code) ∈ evs →
  AConsoleLog (exitLog code) ∈ emitted (deliver (launchHandler server) evs v) s.
Proof.
  revert v s. induction evs as [|ev evs IH]; intros v s Hin.
  - inversion Hin.
  - assert (Happ : ∀ v, appends (fun _ => True) (deliver (launchHandler server) evs v)).
    { intros v'. apply appends_deliver. intros. apply appends_launchHandler; auto. }
    apply elem_of_cons in Hin as [<-|Hin].
    + unfold emitted. simpl. eff. unfold console_log, emit, exitLog.
      destruct (truthy_code code), (starting v); simpl;
        match goal with
        | |- context [deliver _ evs ?v1 ?s1] =>
            destruct (Happ v1 s1) as (acts & Ht & _)
        end;
        simpl in Ht; rewrite Ht, <- app_assoc, drop_app_length;
        apply list_elem_of_here.
    + unfold emitted. simpl. eff.
      destruct (appends_launchHandler (fun _ => True) server v ev
                  (fun _ => I) (fun _ => I) s) as (a1 & Ht1 & _).
      destruct (launchHandler server v ev s) as [v1 s1]; simpl in *.
      specialize (IH v1 s1 Hin). unfold emitted in IH.
      destruct (Happ v1 s1) as (a2 & Ht2 & _).
      rewrite Ht2 in *. rewrite drop_app_length in IH.
      rewrite Ht1, <- app_assoc, drop_app_length.
      apply elem_of_app. right. exact IH.
Qed.

Lemma launchServer_trace path s :
  ∃ acts,
    trace (launchServer path s).2 =
      trace s ++ ASpawn executableName ["-vvvv"; "-s"]
                   {| opt_env := Obj (length (objs s)); opt_cwd := cwdFor path |}
                 :: AWaitPort probeParams 5000 :: acts
    ∧ acts = emitted (deliver (launchHandler (Child (children s))) launchTimeline
                        {| starting := true; launch := Pending |})
               (launchStarted path s)
    ∧ Forall (fun a => is_spawn a = false) acts.
Proof.
  destruct (appends_deliver (fun a => is_spawn a = false)
              (launchHandler (Child (children s))) launchTimeline
              {| starting := true; launch := Pending |}
              ltac:(intros; apply appends_launchHandler; reflexivity)
              (launchStarted path s)) as (acts & Ht & Hacts).
  exists acts. rewrite (emitted_of _ _ _ Ht). split; [|split; [reflexivity|exact Hacts]].
  rewrite launchServer_run.
  destruct (deliver _ _ _ _) as [v s']. cbn [fst snd] in *.
  rewrite Ht, launchStarted_trace, <- app_assoc. reflexivity.
Qed.







Lemma timeline_chatter child t probe :
  Forall (fun te => is_output te.2 = true ∨ (t < te.1)%Z) child →
  ∃ pre post, timeline child t probe = pre ++ probe :: post
    ∧ Forall (fun e => is_chatter e = true) pre.
Proof.
  induction 1 as [|[t' ev] child Hev _ IH]; simpl.
  - exists [], []. split; [reflexivity|constructor].
  - destruct (Z.ltb_spec t' t) as [Hlt|Hge].
    + destruct IH as (pre & post & -> & Hpre).
      exists (ChildEv ev :: pre), post. split; [reflexivity|].
      constructor; [|exact Hpre]. simpl in *. destruct Hev as [Hev|Hev]; [exact Hev|lia].
    + eexists [], _. split; [reflexivity|constructor].
Qed.

Lemma find_accepting (f : Z -> bool) l :
  (∃ t, t ∈ l ∧ f t = true) → ∃ t, List.find f l = Some t.
Proof.
  intros (t & Hin & Ht). induction l as [|x l IH]; [inversion Hin|].
  simpl. destruct (f x) eqn:E; [eauto|].
  apply elem_of_cons in Hin as [->|Hin]; [congruence|auto].
Qed.

Lemma find_refusing (f : Z -> bool) l :
  (∀ t, t ∈ l → f t = false) → List.find f l = None.
Proof.
  induction l as [|x l IH]; intros H; [reflexivity|].
  simpl. rewrite (H x) by apply list_elem_of_here.
  apply IH. intros t Ht. apply H. apply list_elem_of_further. exact Ht.
Qed.

(** C2: the readiness prober.  [launchServer] asks the prober for port
    38397 with 150 milliseconds between attempts and a deadline of 5000
    milliseconds, so the attempts are made at 0, 150, 300, ..., 4950
    milliseconds.  When the child neither exits nor fails before the
    prober settles: if an attempt is accepted the launch resolves with
    the spawned child and the URL ws://127.0.0.1:38397; if none is, the
    prober settles at 5000 milliseconds and the launch is rejected with
    the "server not available" error, whatever the child does later. *)
Theorem launchServer_probe (pathToBinary : string) (s : State) :
  Forall (fun te => is_output te.2 = true ∨ (probeSettlement.1 < te.1)%Z)
    server_child →
  let result := (launchServer pathToBinary s).1 in
  AWaitPort {| wp_host := "127.0.0.1"; wp_port := 38397; wp_timeout := 150 |} 5000
    ∈ emitted (launchServer pathToBinary) s
  ∧ attempt_times 150 5000 = List.map (fun k => 150 * Z.of_nat k)%Z (seq 0 34)
  ∧ ((∃ t, t ∈ attempt_times 150 5000 ∧ port_accepts 38397 t = true) →
       result = Fulfilled {| process := Child (children s);
                             url := "ws://127.0.0.1:38397" |})
  ∧ ((∀ t, t ∈ attempt_times 150 5000 → port_accepts 38397 t = false) →
       result = Rejected (mkError
         "fernspielapparat server not available on port 38397 after 5 seconds, giving up.")
       ∧ probeSettlement = (5000%Z, false)).
Proof.
  intros Hchild result.
  destruct (timeline_chatter server_child probeSettlement.1
              (if probeSettlement.2 then PortOpen else PortTimeout) Hchild)
    as (pre & post & Htl & Hpre).
  assert (Hres : result = firstOutcome (Child (children s))
                            (if probeSettlement.2 then PortOpen else PortTimeout)).
  { subst result. rewrite launchServer_run. unfold launchTimeline. rewrite Htl.
    pose proof (deliver_launch_first (Child (children s)) pre
                  (if probeSettlement.2 then PortOpen else PortTimeout) post
                  (launchStarted pathToBinary s) Hpre) as H.
    destruct (deliver _ _ _ _) as [v s']. cbn [fst snd] in *.
    apply H. destruct probeSettlement.2; reflexivity. }
  split; [|split; [|split]].
  - destruct (launchServer_trace pathToBinary s) as (acts & Htr & _).
    rewrite (emitted_of _ _ _ Htr).
    apply list_elem_of_further, list_elem_of_here.
  - vm_compute. reflexivity.
  - intros Hacc. apply (find_accepting (port_accepts 38397)) in Hacc as [t Ht].
    rewrite Hres. unfold probeSettlement, waitPortOutcome, probeParams.
    cbn [wp_port wp_timeout]. rewrite Ht. reflexivity.
  - intros Hrej. apply (find_refusing (port_accepts 38397)) in Hrej.
    rewrite Hres. unfold probeSettlement, waitPortOutcome, probeParams.
    cbn [wp_port wp_timeout]. rewrite Hrej. split; reflexivity.
Qed.

(** C3: a launch settles once, and the first of the child's exit, the
    child's spawn error and the prober's settlement decides it.  A
    settled launch is left as it is by every later callback.  When the
    first event that is not mere output is the child's exit, the launch
    is rejected with the error that carries the exit code and not with
    the prober's timeout, whatever follows; when it is the prober's
    success, the launch stays resolved and a later exit of the child is
    logged. *)
Theorem launch_settles_once (pathToBinary : string) (s : State)
    (pre post : list LaunchEvent) (ev : LaunchEvent) :
  launchTimeline = pre ++ ev :: post →
  Forall (fun e => is_chatter e = true) pre →
  is_chatter ev = false →
  let result := (launchServer pathToBinary s).1 in
  let server := Child (children s) in
  (∀ v ev' s', is_settled (launch v) = true →
               launch (launchHandler server v ev' s').1 = launch v)
  ∧ result = firstOutcome server ev
  ∧ is_settled result = true
  ∧ (∀ code, ev = ChildEv (ExitEvent code) →
       result = Rejected (mkError
                  ("fernspielapparat unexpected exit at startup with code "
                   +:+ code_to_string code))
       ∧ result ≠ Rejected probeTimeoutError)
  ∧ (ev = PortOpen →
       result = Fulfilled {| process := server; url := "ws://127.0.0.1:38397" |}
       ∧ ∀ code, ChildEv (ExitEvent code) ∈ post →
           AConsoleLog (exitLog code) ∈ emitted (launchServer pathToBinary) s).
Proof.
  intros Htl Hpre Hev result server.
  assert (Hres : result = firstOutcome server ev).
  { subst result. rewrite launchServer_run, Htl.
    pose proof (deliver_launch_first server pre ev post
                  (launchStarted pathToBinary s) Hpre Hev) as H.
    destruct (deliver _ _ _ _) as [v s']. exact H. }
  split; [intros v ev' s'; apply launchHandler_settled|].
  split; [exact Hres|]. split; [|split].
  - rewrite Hres. destruct ev as [[d|d|msg|code]| |]; try reflexivity; discriminate.
  - intros code ->. rewrite Hres. simpl. split; [reflexivity|].
    intros [= H].
  - intros ->. split; [exact Hres|]. intros code Hin.
    pose proof (deliver_launch_exit_logged server launchTimeline code
                  {| starting := true; launch := Pending |}
                  (launchStarted pathToBinary s)) as Hlog.
    rewrite Htl in Hlog at 1.
    specialize (Hlog ltac:(apply elem_of_app; right; apply list_elem_of_further, Hin)).
    destruct (launchServer_trace pathToBinary s) as (acts & Htr & Hacts & _).
    fold server in Hacts. rewrite <- Hacts in Hlog.
    rewrite (emitted_of _ _ _ Htr).
    apply list_elem_of_further, list_elem_of_further, Hlog.
Qed.

(** *** The installer's extraction *)

Lemma sapp_length s1 s2 : String.length (s1 +:+ s2) = String.length s1 + String.length s2.
Proof. induction s1 as [|c s1 IH]; [reflexivity|]. rewrite sapp_cons. simpl. lia. Qed.

Lemma sapp_inj_same_length s1 s2 a b :
  s1 +:+ a = s2 +:+ b → String.length a = String.length b → s1 = s2 ∧ a = b.
Proof.
  intros Heq Hlen.
  assert (Hl : String.length s1 = String.length s2).
  { apply (f_equal String.length) in Heq. rewrite !sapp_length in Heq. lia. }
  revert s2 Heq Hl. induction s1 as [|c s1 IH]; intros [|c' s2] Heq Hl;
    try discriminate.
  - split; [reflexivity|exact Heq].
  - rewrite !sapp_cons in Heq. injection Heq as -> Heq. injection Hl as Hl.
    destruct (IH s2 Heq Hl) as [-> ->]. split; reflexivity.
Qed.

Lemma ends_withb_spec suffix s : ends_withb suffix s = true ↔ ends_with suffix s.
Proof.
  unfold ends_with. induction s as [|c s IH]; cbn [ends_withb].
  - rewrite orb_false_r. destruct (String.eqb_spec "" suffix) as [<-|Hne]; split.
    + intros _. exists "". reflexivity.
    + reflexivity.
    + discriminate.
    + intros (pre & H). destruct pre; [contradiction|discriminate].
  - rewrite orb_true_iff, IH.
    destruct (String.eqb_spec (String c s) suffix) as [<-|Hne]; split.
    + intros _. exists "". reflexivity.
    + intros _. left. reflexivity.
    + intros [H|(pre & ->)]; [discriminate|]. exists (String c pre). reflexivity.
    + intros (pre & H). destruct pre as [|c' pre]; [contradiction|].
      rewrite sapp_cons in H. injection H as _ ->. right. eauto.
Qed.

Lemma test_exeRegex s : test exeRegex s = true ↔ ends_with "fernspielapparat" s.
Proof.
  rewrite test_spec. unfold match_here, exeRegex, ends_with.
  cbn [atoms anchored_end ignore_case]. split.
  - intros (pre & rest & -> & H). exists pre.
    destruct (match_prefix false (lits "fernspielapparat") rest) as [suf|] eqn:E;
      [|discriminate].
    apply match_prefix_lits in E. apply String.eqb_eq in H. subst suf rest.
    rewrite sapp_nil_r. reflexivity.
  - intros (pre & ->). exists pre, "fernspielapparat". split; reflexivity.
Qed.

Lemma test_exeWinRegex_suffix s :
  ends_with "fernspielapparat.exe" s → test exeWinRegex s = true.
Proof.
  intros (pre & ->). apply test_spec.
  exists pre, "fernspielapparat.exe". split; reflexivity.
Qed.

(** The dot of the second pattern is not escaped: it stands for any
    character but a line terminator. *)
Lemma exeWinRegex_any_character :
  test exeWinRegex "dist/fernspielapparat-exe" = true.
Proof. reflexivity. Qed.

Lemma exe_suffix_not_bare s :
  ends_with "fernspielapparat.exe" s → test exeRegex s = false.
Proof.
  intros (pre & ->). destruct (test exeRegex _) eqn:E; [|reflexivity].
  apply test_exeRegex in E as (pre' & E).
  change "fernspielapparat.exe" with ("fern" +:+ "spielapparat.exe") in E.
  rewrite <- sapp_assoc in E.
  apply sapp_inj_same_length in E as [_ E]; [discriminate|reflexivity].
Qed.

Lemma isExecutable_bare_destination :
  isExecutable (userDir +:+ "/" +:+ "fernspielapparat") = true.
Proof.
  unfold isExecutable. apply orb_true_iff. left. apply test_exeRegex.
  exists (userDir +:+ "/"). rewrite sapp_assoc. reflexivity.
Qed.

Lemma isExecutable_exe_destination :
  isExecutable (userDir +:+ "/" +:+ "fernspielapparat.exe") = true.
Proof.
  unfold isExecutable. apply orb_true_iff. right. apply test_exeWinRegex_suffix.
  exists (userDir +:+ "/"). rewrite sapp_assoc. reflexivity.
Qed.

(** An entry whose name the test accepts is let through, under one of
    the two bare names. *)
Lemma isExecutable_name_kept e :
  isExecutable (name e) = true →
  kept e = true
  ∧ (destination e = userDir +:+ "/fernspielapparat"
     ∨ destination e = userDir +:+ "/fernspielapparat.exe").
Proof.
  unfold isExecutable, kept, destination, mapHeader. intros H.
  destruct (test exeRegex (name e)) eqn:E1; simpl.
  - split; [apply isExecutable_bare_destination|left; reflexivity].
  - simpl in H. rewrite H. simpl.
    split; [apply isExecutable_exe_destination|right; reflexivity].
Qed.

Lemma ends_with_bare_kept e :
  ends_with "fernspielapparat" (name e) →
  kept e = true ∧ destination e = userDir +:+ "/fernspielapparat".
Proof.
  intros H. apply test_exeRegex in H.
  unfold kept, destination, mapHeader. rewrite H. simpl.
  split; [apply isExecutable_bare_destination|reflexivity].
Qed.

Lemma ends_with_exe_kept e :
  ends_with "fernspielapparat.exe" (name e) →
  kept e = true ∧ destination e = userDir +:+ "/fernspielapparat.exe".
Proof.
  intros H. pose proof (exe_suffix_not_bare _ H) as H1.
  apply test_exeWinRegex_suffix in H.
  unfold kept, destination, mapHeader. rewrite H1, H. simpl.
  split; [apply isExecutable_exe_destination|reflexivity].
Qed.

Lemma mapHeader_data e : data (default e (mapHeader e)) = data e.
Proof.
  unfold mapHeader. destruct (test exeRegex _); [reflexivity|].
  destruct (test exeWinRegex _); reflexivity.
Qed.

Lemma binaryAfter_cons binary e es :
  binaryAfter (Some (destination e)) es = binaryAfter binary (e :: es).
Proof.
  unfold binaryAfter. rewrite last_cons. destruct (last es); reflexivity.
Qed.

Lemma extractEntry_run e binary s :
  extractEntry userDir ignore mapHeader binary e s =
  if kept e then
    (Some (destination e),
     {| process_env := process_env s; objs := objs s;
        disk := <[destination e := data e]> (disk s);
        children := children s;
        trace := trace s ++ [AWriteFile (destination e) (data e)] |})
  else (binary, s).
Proof.
  unfold extractEntry, ignore. fold (destination e). fold (kept e).
  destruct (kept e); simpl; [|reflexivity].
  eff. unfold write_file. rewrite mapHeader_data. reflexivity.
Qed.

Lemma deliver_extractEntry es binary s :
  deliver (extractEntry userDir ignore mapHeader) es binary s =
  (binaryAfter binary (matching es),
   {| process_env := process_env s; objs := objs s;
      disk := diskAfter (disk s) (matching es);
      children := children s;
      trace := trace s ++ writeActions (matching es) |}).
Proof.
  revert binary s. induction es as [|e es IH]; intros binary s; simpl.
  - unfold writeActions; simpl. rewrite app_nil_r. destruct s; reflexivity.
  - eff. rewrite extractEntry_run. unfold matching. rewrite filter_cons.
    destruct (kept e) eqn:Hk.
    + rewrite decide_True by reflexivity. rewrite IH. cbn [process_env objs disk children trace].
      rewrite <- app_assoc. fold (matching es).
      rewrite <- (binaryAfter_cons binary). reflexivity.
    + rewrite decide_False by discriminate. apply IH.
Qed.

Lemma destination_truthy e : truthy (Some (destination e)) = true.
Proof.
  unfold destination, truthy. destruct userDir; reflexivity.
Qed.

Lemma extractExecutableToUserDir_run tarPath s :
  extractExecutableToUserDir tarPath s =
  match damage (tarball tarPath) with
  | Some msg =>
      (Rejected (mkError ("Failed to decompress release, error: " +:+ msg +:+ ".")),
       extracted tarPath s)
  | None =>
      match last (matching (entries (tarball tarPath))) with
      | Some e =>
          (Fulfilled (destination e),
           (console_log ("extracted binary: " +:+ destination e)
              (extracted tarPath s)).2)
      | None =>
          (Rejected (mkError "Could not find executable in tarball"),
           extracted tarPath s)
      end
  end.
Proof.
  unfold extractExecutableToUserDir, decompress, emit. eff.
  rewrite deliver_extractEntry. cbv beta iota zeta. simpl.
  replace ((trace s ++ [ADecompress tarPath userDir]) ++
           writeActions (matching (entries (tarball tarPath))))
    with (trace s ++ ADecompress tarPath userDir
            :: writeActions (matching (entries (tarball tarPath))))
    by (rewrite <- app_assoc; reflexivity).
  fold (extracted tarPath s).
  destruct (damage (tarball tarPath)); [reflexivity|].
  unfold binaryAfter. destruct (last (matching _)) as [e|]; [|reflexivity].
  rewrite destination_truthy. reflexivity.
Qed.

Lemma diskAfter_lookup d es path :
  diskAfter d es !! path =
  match last (filter (fun e => destination e = path) es) with
  | Some e => Some (data e)
  | None => d !! path
  end.
Proof.
  revert d. induction es as [|e es IH]; intros d; [reflexivity|].
  unfold diskAfter in *. simpl. rewrite IH, filter_cons.
  destruct (decide (destination e = path)) as [Heq|Hne].
  - rewrite last_cons. destruct (last _); [reflexivity|].
    rewrite Heq. apply lookup_insert_eq.
  - destruct (last _); [reflexivity|]. apply lookup_insert_ne. exact Hne.
Qed.

Lemma extract_emitted tarPath s :
  ∃ logs,
    emitted (extractExecutableToUserDir tarPath) s =
      ADecompress tarPath userDir
        :: writeActions (matching (entries (tarball tarPath))) ++ logs
    ∧ Forall (fun a => is_write a = false) logs
    ∧ disk (extractExecutableToUserDir tarPath s).2
      = diskAfter (disk s) (matching (entries (tarball tarPath))).
Proof.
  unfold emitted. rewrite extractExecutableToUserDir_run.
  destruct (damage (tarball tarPath)) as [msg|];
    [|destruct (last (matching _)) as [e|]].
  - exists []. rewrite app_nil_r. repeat split; [|constructor].
    cbn [snd extracted trace]. apply drop_app_length.
  - exists [AConsoleLog ("extracted binary: " +:+ destination e)].
    repeat split; [|repeat constructor].
    unfold console_log, emit, extracted.
    cbn [snd trace]. rewrite <- app_assoc. rewrite drop_app_length. reflexivity.
  - exists []. rewrite app_nil_r. repeat split; [|constructor].
    cbn [snd extracted trace]. apply drop_app_length.
Qed.

Lemma matching_none es : (∀ e, e ∈ es → kept e = false) → matching es = [].
Proof.
  unfold matching. induction es as [|e es IH]; intros H; [reflexivity|].
  rewrite filter_cons, decide_False.
  - apply IH. intros e' He'. apply H, list_elem_of_further, He'.
  - rewrite (H e) by apply list_elem_of_here. discriminate.
Qed.

Lemma matching_elem e es : e ∈ es → kept e = true → e ∈ matching es.
Proof. intros Hin Hk. apply list_elem_of_filter. auto. Qed.

(** C4 (as amended): every entry whose name ends in [fernspielapparat]
    or [fernspielapparat.exe] is written to the install directory under
    that bare name, the one it matched, whatever the platform; a file is
    written only for an entry whose destination passes the recognition
    test; when the archive is read without error, extraction resolves
    with the path of the last file written, which then holds that
    entry's content; and when the test passes for no entry, nothing is
    written, extraction never reports success and rejects with "Could
    not find executable in tarball". *)
Theorem extract_recognised (tarPath : string) (s : State) :
  let es := entries (tarball tarPath) in
  let result := (extractExecutableToUserDir tarPath s).1 in
  let s' := (extractExecutableToUserDir tarPath s).2 in
  let acts := emitted (extractExecutableToUserDir tarPath) s in
  (∀ e, e ∈ es → ends_with "fernspielapparat" (name e) →
        AWriteFile (userDir +:+ "/fernspielapparat") (data e) ∈ acts)
  ∧ (∀ e, e ∈ es → ends_with "fernspielapparat.exe" (name e) →
        AWriteFile (userDir +:+ "/fernspielapparat.exe") (data e) ∈ acts)
  ∧ (∀ path content, AWriteFile path content ∈ acts →
        isExecutable path = true
        ∧ ∃ e, e ∈ es ∧ path = destination e ∧ content = data e)
  ∧ (damage (tarball tarPath) = None →
       ∀ e, last (matching es) = Some e →
         result = Fulfilled (destination e)
         ∧ disk s' !! destination e = Some (data e))
  ∧ ((∀ e, e ∈ es → kept e = false) →
       (∀ v, result ≠ Fulfilled v)
       ∧ Forall (fun a => is_write a = false) acts
       ∧ (damage (tarball tarPath) = None →
            result = Rejected (mkError "Could not find executable in tarball"))).
Proof.
  intros es result s' acts.
  destruct (extract_emitted tarPath s) as (logs & Hacts & Hlogs & Hdisk).
  fold acts in Hacts. fold es in Hacts. fold s' in Hdisk. fold es in Hdisk.
  assert (Hwritten : ∀ e, e ∈ es → kept e = true →
            AWriteFile (destination e) (data e) ∈ acts).
  { intros e Hin Hk. rewrite Hacts. apply list_elem_of_further, elem_of_app. left.
    unfold writeActions. apply list_elem_of_fmap. exists e. split; [reflexivity|].
    apply matching_elem; assumption. }
  split; [|split; [|split; [|split]]].
  - intros e Hin Hend. apply ends_with_bare_kept in Hend as [Hk Hd].
    rewrite <- Hd. apply Hwritten; assumption.
  - intros e Hin Hend. apply ends_with_exe_kept in Hend as [Hk Hd].
    rewrite <- Hd. apply Hwritten; assumption.
  - intros path content Hin. rewrite Hacts in Hin.
    apply elem_of_cons in Hin as [Hin|Hin]; [discriminate|].
    apply elem_of_app in Hin as [Hin|Hin].
    + unfold writeActions in Hin. apply list_elem_of_fmap in Hin as (e & [= -> ->] & He).
      apply list_elem_of_filter in He as [Hk He]. split; [exact Hk|]. eauto.
    + rewrite Forall_forall in Hlogs. apply Hlogs in Hin. discriminate.
  - intros Hdmg e Hlast. subst result s'.
    rewrite Hdisk. rewrite extractExecutableToUserDir_run, Hdmg. fold es.
    rewrite Hlast. split; [reflexivity|].
    rewrite diskAfter_lookup.
    assert (last (filter (fun e' => destination e' = destination e) (matching es))
            = Some e) as ->; [|reflexivity].
    apply last_Some in Hlast as [l' Hl']. rewrite Hl', filter_app, filter_cons.
    rewrite decide_True by reflexivity. simpl. apply last_snoc.
  - intros Hnone.
    pose proof (matching_none es Hnone) as Hm.
    rewrite Hm in Hacts. simpl in Hacts.
    split; [|split].
    + intros v. subst result. rewrite extractExecutableToUserDir_run. fold es.
      rewrite Hm. simpl. destruct (damage (tarball tarPath)); discriminate.
    + rewrite Hacts. constructor; [reflexivity|exact Hlogs].
    + intros Hdmg. subst result. rewrite extractExecutableToUserDir_run, Hdmg.
      fold es. rewrite Hm. reflexivity.
Qed.

(** C9 (as amended): when the archive is read without error, every
    entry the recognition test accepts is written, in the order of the
    scan, each under the bare name it matched ([fernspielapparat] or
    [fernspielapparat.exe]); of the entries written to one path the last
    one scanned is what the disk holds, so later entries overwrite
    earlier ones of the same name; and extraction resolves with the path
    of the last accepted entry scanned. *)
Theorem extract_multiple (tarPath : string) (s : State) :
  damage (tarball tarPath) = None →
  let es := entries (tarball tarPath) in
  let result := (extractExecutableToUserDir tarPath s).1 in
  let s' := (extractExecutableToUserDir tarPath s).2 in
  let acts := emitted (extractExecutableToUserDir tarPath) s in
  (∃ logs, acts = ADecompress tarPath userDir :: writeActions (matching es) ++ logs
           ∧ Forall (fun a => is_write a = false) logs)
  ∧ (∀ e, e ∈ es → isExecutable (name e) = true →
          e ∈ matching es
          ∧ (destination e = userDir +:+ "/fernspielapparat"
             ∨ destination e = userDir +:+ "/fernspielapparat.exe"))
  ∧ (∀ path e, last (filter (fun e' => destination e' = path) (matching es)) = Some e →
          disk s' !! path = Some (data e))
  ∧ (∀ e, last (matching es) = Some e → result = Fulfilled (destination e)).
Proof.
  intros Hdmg es result s' acts.
  destruct (extract_emitted tarPath s) as (logs & Hacts & Hlogs & Hdisk).
  fold acts in Hacts. fold es in Hacts. fold s' in Hdisk. fold es in Hdisk.
  split; [eauto|]. split; [|split].
  - intros e Hin Hname. apply isExecutable_name_kept in Hname as [Hk Hd].
    split; [apply matching_elem; assumption|exact Hd].
  - intros path e Hlast. rewrite Hdisk, diskAfter_lookup, Hlast. reflexivity.
  - intros e Hlast. subst result.
    rewrite extractExecutableToUserDir_run, Hdmg. fold es. rewrite Hlast. reflexivity.
Qed.

(** ** Further properties *)

(** *** The recognition test of the installer *)

Lemma match_prefix_app ci p q s :
  match_prefix ci (p ++ q) s =
  match match_prefix ci p s with
  | Some rest => match_prefix ci q rest
  | None => None
  end.
Proof.
  revert s. induction p as [|a p IH]; intros s; simpl; [reflexivity|].
  destruct s as [|c s]; [reflexivity|].
  destruct (atom_matches ci a c); [apply IH|reflexivity].
Qed.

Lemma match_here_exeWinRegex rest :
  match_here exeWinRegex rest = true ↔
  ∃ c, is_line_terminator c = false
       ∧ rest = "fernspielapparat" +:+ String c "exe".
Proof.
  unfold match_here, exeWinRegex. cbn [atoms anchored_end ignore_case].
  rewrite match_prefix_app. split.
  - destruct (match_prefix false (lits "fernspielapparat") rest) as [r1|] eqn:E1;
      [|discriminate].
    apply match_prefix_lits in E1. subst rest.
    rewrite match_prefix_app. destruct r1 as [|c r2]; [discriminate|].
    cbn [match_prefix atom_matches].
    destruct (is_line_terminator c) eqn:Hc; [discriminate|]. cbn [negb].
    destruct (match_prefix false (lits "exe") r2) as [r3|] eqn:E3; [|discriminate].
    apply match_prefix_lits in E3. intros H. apply String.eqb_eq in H. subst r3 r2.
    exists c. split; [exact Hc|reflexivity].
  - intros (c & Hc & ->).
    assert (match_prefix false (lits "fernspielapparat")
              ("fernspielapparat" +:+ String c "exe") = Some (String c "exe")) as ->.
    { apply match_prefix_lits. reflexivity. }
    rewrite match_prefix_app. cbn [match_prefix atom_matches]. rewrite Hc.
    reflexivity.
Qed.

Lemma test_exeWinRegex s :
  test exeWinRegex s = true ↔
  ∃ c, is_line_terminator c = false
       ∧ ends_with ("fernspielapparat" +:+ String c "exe") s.
Proof.
  rewrite test_spec. unfold ends_with. split.
  - intros (pre & rest & -> & H). apply match_here_exeWinRegex in H as (c & Hc & ->).
    eauto.
  - intros (c & Hc & pre & ->). exists pre, ("fernspielapparat" +:+ String c "exe").
    split; [reflexivity|]. apply match_here_exeWinRegex. eauto.
Qed.

(** X1: the recognition test accepts a name exactly when it ends in
    [fernspielapparat], or in [fernspielapparat], one more character
    that is no line terminator, and [exe].  Only the end of the name
    counts, and the character before [exe] need not be a dot. *)
Theorem isExecutable_spec (file : string) :
  isExecutable file = true ↔
  ends_with "fernspielapparat" file
  ∨ ∃ c, is_line_terminator c = false
         ∧ ends_with ("fernspielapparat" +:+ String c "exe") file.
Proof.
  unfold isExecutable. rewrite orb_true_iff, test_exeRegex, test_exeWinRegex.
  reflexivity.
Qed.

Lemma patterns_exclusive s :
  test exeRegex s = true → test exeWinRegex s = true → False.
Proof.
  intros H1 H2. apply test_exeRegex in H1 as (pre1 & H1).
  apply test_exeWinRegex in H2 as (c & _ & pre2 & H2). subst s.
  change ("fernspielapparat" +:+ String c "exe")
    with ("fern" +:+ ("spielapparat" +:+ String c "exe")) in H2.
  rewrite <- sapp_assoc in H2.
  apply sapp_inj_same_length in H2 as [_ H2]; [discriminate|reflexivity].
Qed.

(** X2: the [map] callback and the recognition test agree on names: a
    header is renamed exactly when its name passes the test; the two
    patterns never both match, so the order of the two branches does
    not matter; the new name is one of the two bare names, the content
    is kept, and a renamed header is renamed to itself. *)
Theorem mapHeader_agrees (e : TarEntry) :
  (mapHeader e = None ↔ isExecutable (name e) = false)
  ∧ (test exeRegex (name e) && test exeWinRegex (name e) = false)
  ∧ (∀ e', mapHeader e = Some e' →
        data e' = data e
        ∧ (name e' = "fernspielapparat" ∨ name e' = "fernspielapparat.exe")
        ∧ (name e' = "fernspielapparat" ↔ ends_with "fernspielapparat" (name e))
        ∧ mapHeader e' = Some e').
Proof.
  unfold mapHeader, isExecutable. split; [|split].
  - destruct (test exeRegex (name e)); [split; discriminate|].
    destruct (test exeWinRegex (name e)); split; try discriminate; reflexivity.
  - destruct (test exeRegex (name e)) eqn:E1; [|reflexivity].
    destruct (test exeWinRegex (name e)) eqn:E2; [|reflexivity].
    destruct (patterns_exclusive _ E1 E2).
  - intros e'. destruct (test exeRegex (name e)) eqn:E1.
    + intros [= <-]. cbn [name data]. repeat split; auto.
      intros _. apply test_exeRegex. exact E1.
    + destruct (test exeWinRegex (name e)) eqn:E2; [|discriminate].
      intros [= <-]. cbn [name data]. repeat split; auto; try discriminate.
      intros H. apply test_exeRegex in H. congruence.
Qed.

(** *** What a launch of the server does, and how it ends *)



Lemma timeline_has_probe child t probe : probe ∈ timeline child t probe.
Proof.
  induction child as [|[t' ev] child IH]; simpl; [apply list_elem_of_here|].
  destruct (t' <? t)%Z; [apply list_elem_of_further, IH|apply list_elem_of_here].
Qed.


Lemma launchHandler_probe_settles server v ev s :
  ev = PortOpen ∨ ev = PortTimeout →
  is_settled (launch (launchHandler server v ev s).1) = true.
Proof. intros [->| ->]; simpl; destruct (launch v); reflexivity. Qed.

Lemma deliver_launch_probe_settles server evs v s :
  PortOpen ∈ evs ∨ PortTimeout ∈ evs →
  is_settled (launch (deliver (launchHandler server) evs v s).1) = true.
Proof.
  revert v s. induction evs as [|ev evs IH]; intros v s Hin.
  - destruct Hin as [Hin|Hin]; inversion Hin.
  - simpl. eff.
    assert (Hdec : (ev = PortOpen ∨ ev = PortTimeout)
                   ∨ ¬ (ev = PortOpen ∨ ev = PortTimeout)).
    { destruct ev as [c| |]; auto. right. intros [?|?]; discriminate. }
    destruct Hdec as [Hev|Hev].
    + pose proof (launchHandler_probe_settles server v ev s Hev) as H1.
      destruct (launchHandler server v ev s) as [v1 s1]. cbn [fst] in H1.
      rewrite deliver_launch_settled; assumption.
    + destruct (launchHandler server v ev s) as [v1 s1]. apply IH.
      destruct Hin as [Hin|Hin]; apply elem_of_cons in Hin as [<-|Hin]; auto;
        exfalso; apply Hev; auto.
Qed.

Lemma launchTimeline_has_probe :
  PortOpen ∈ launchTimeline ∨ PortTimeout ∈ launchTimeline.
Proof.
  pose proof (timeline_has_probe server_child probeSettlement.1
                (if probeSettlement.2 then PortOpen else PortTimeout)) as Hin.
  fold launchTimeline in Hin. destruct probeSettlement.2; auto.
Qed.

Lemma launchServer_not_pending (pathToBinary : string) (s : State) :
  (launchServer pathToBinary s).1 ≠ Pending.
Proof.
  rewrite launchServer_run.
  pose proof (deliver_launch_probe_settles (Child (children s)) launchTimeline
                {| starting := true; launch := Pending |}
                (launchStarted pathToBinary s) launchTimeline_has_probe) as H.
  destruct (deliver _ _ _ _) as [v s']. cbn [fst] in *.
  intros Hp. rewrite Hp in H. discriminate.
Qed.

(** X4: a launch of the server always settles: whatever the child does
    and whether or not the port opens, [launchServer] ends resolved or
    rejected, never pending. *)
Theorem launchServer_settles (pathToBinary : string) (s : State) :
  is_settled (launchServer pathToBinary s).1 = true.
Proof.
  rewrite launchServer_run.
  pose proof (deliver_launch_probe_settles (Child (children s)) launchTimeline
                {| starting := true; launch := Pending |}
                (launchStarted pathToBinary s)) as H.
  destruct (deliver _ _ _ _) as [v s']. cbn [fst] in *.
  apply H, launchTimeline_has_probe.
Qed.


(** *** What a launch leaves as it is *)

Section Keeps.
Context (R : State -> State -> Prop) `{!PreOrder R}.
Hypothesis Hemit : ∀ a, keeps R (emit a).

Lemma keeps_ret {A} (a : A) : keeps R (mret a).
Proof. intros s. reflexivity. Qed.

Lemma keeps_bind {A B} (m : Eff A) (f : A -> Eff B) :
  keeps R m → (∀ a, keeps R (f a)) → keeps R (m ≫= f).
Proof.
  intros Hm Hf s. eff. specialize (Hm s).
  destruct (m s) as [a s1]; cbn [snd] in *.
  etransitivity; [exact Hm|apply Hf].
Qed.

Lemma keeps_deliver {V E} (h : V -> E -> Eff V) evs v :
  (∀ v ev, keeps R (h v ev)) → keeps R (deliver h evs v).
Proof.
  intros Hh. revert v. induction evs as [|ev evs IH]; intros v; simpl.
  - apply keeps_ret.
  - apply keeps_bind; [apply Hh|]. intros v'. apply IH.
Qed.

Lemma keeps_then2 {A B} (p : Promise A) (f : A -> Eff (Promise B)) g :
  (∀ a, keeps R (f a)) → (∀ e, keeps R (g e)) → keeps R (then2 p f g).
Proof. intros Hf Hg. destruct p; [apply keeps_ret|apply Hf|apply Hg]. Qed.

Lemma keeps_then1 {A B} (p : Promise A) (f : A -> Eff (Promise B)) :
  (∀ a, keeps R (f a)) → keeps R (then1 p f).
Proof. intros Hf. apply keeps_then2; [exact Hf|]. intros e. apply keeps_ret. Qed.

Lemma keeps_versionHandler v ev : keeps R (versionHandler v ev).
Proof.
  destruct ev as [d|d|msg|code]; simpl; try apply keeps_ret.
  destruct (truthy_code code); [apply keeps_ret|].
  destruct (split " " (output v)) as [|w0 [|w1 [|w2 ws]]];
    try apply keeps_ret;
    (apply keeps_bind; [apply Hemit|intros _; apply keeps_ret]).
Qed.

Lemma keeps_launchHandler server v ev : keeps R (launchHandler server v ev).
Proof.
  destruct ev as [[d|d|msg|code]| |]; simpl; try apply keeps_ret.
  - apply keeps_bind; [apply Hemit|intros _; apply keeps_ret].
  - apply keeps_bind; [apply Hemit|intros _; apply keeps_ret].
  - apply keeps_bind.
    + destruct (truthy_code code); apply Hemit.
    + intros _. destruct (starting v); apply keeps_ret.
Qed.

Lemma keeps_fernspielapparatPathInUserDir : keeps R fernspielapparatPathInUserDir.
Proof.
  unfold fernspielapparatPathInUserDir. cbv zeta.
  apply keeps_bind; [apply Hemit|intros _].
  destruct (fs_access _ _); [apply keeps_ret|].
  apply keeps_bind; [apply Hemit|intros _; apply keeps_ret].
Qed.

Lemma keeps_fernspielapparatOnPath version : keeps R (fernspielapparatOnPath version).
Proof. apply keeps_bind; [apply Hemit|intros _; apply keeps_ret]. Qed.

Section Spawning.
Hypothesis Henv : keeps R envForPlatform.
Hypothesis Hspawn : ∀ cmd args opts, keeps R (spawn cmd args opts).

Lemma keeps_fernspielapparatVersionOnPath : keeps R fernspielapparatVersionOnPath.
Proof.
  apply keeps_bind; [exact Henv|intros env].
  apply keeps_bind; [apply Hspawn|intros _].
  apply keeps_bind; [|intros v; apply keeps_ret].
  apply keeps_deliver, keeps_versionHandler.
Qed.

Lemma keeps_getBinary : keeps R getBinary.
Proof.
  apply keeps_bind; [apply keeps_fernspielapparatVersionOnPath|intros p].
  apply keeps_then2.
  - apply keeps_fernspielapparatOnPath.
  - intros _. apply keeps_fernspielapparatPathInUserDir.
Qed.

Lemma keeps_launchServer path : keeps R (launchServer path).
Proof.
  apply keeps_bind; [exact Henv|intros env].
  apply keeps_bind; [apply Hspawn|intros server].
  apply keeps_bind.
  { apply keeps_bind; [apply Hemit|intros _; apply keeps_ret]. }
  intros [t open].
  apply keeps_bind; [|intros v; apply keeps_ret].
  apply keeps_deliver, keeps_launchHandler.
Qed.

End Spawning.

Section Writing.
Hypothesis Hwrite : ∀ path content, keeps R (write_file path content).

Lemma keeps_extractExecutableToUserDir tarPath :
  keeps R (extractExecutableToUserDir tarPath).
Proof.
  apply keeps_bind.
  - apply keeps_bind; [apply Hemit|intros _].
    apply keeps_bind; [|intros v; apply keeps_ret].
    apply keeps_deliver. intros v e. unfold extractEntry. cbv zeta.
    destruct (ignore _ v) as [skip v']. destruct skip; [apply keeps_ret|].
    apply keeps_bind; [apply Hwrite|intros _; apply keeps_ret].
  - intros [err binary]. destruct err; [apply keeps_ret|].
    destruct (negb (truthy binary)); [apply keeps_ret|].
    apply keeps_bind; [apply Hemit|intros _; apply keeps_ret].
Qed.

Lemma keeps_downloadBinary : keeps R downloadBinary.
Proof.
  apply keeps_bind; [apply Hemit|intros _].
  apply keeps_bind.
  - apply keeps_then1. intros url.
    apply keeps_bind; [apply Hemit|intros _; apply keeps_ret].
  - intros p. apply keeps_then1. intros tarPath.
    apply keeps_extractExecutableToUserDir.
Qed.

End Writing.

Section Launching.
Hypothesis Henv : keeps R envForPlatform.
Hypothesis Hspawn : ∀ cmd args opts, keeps R (spawn cmd args opts).
Hypothesis Hwrite : ∀ path content, keeps R (write_file path content).

Lemma keeps_launchRuntime : keeps R launchRuntime.
Proof.
  apply keeps_bind; [apply keeps_getBinary; assumption|intros p].
  apply keeps_bind.
  - apply keeps_then2.
    + intros a. apply keeps_ret.
    + intros _. apply keeps_downloadBinary; assumption.
  - intros q. apply keeps_then1.
    intros path. apply keeps_launchServer; assumption.
Qed.

End Launching.

End Keeps.

#[local] Instance ambient_kept_preorder : PreOrder ambient_kept.
Proof.
  split.
  - intros s. split; [reflexivity|]. exists []. rewrite app_nil_r.
    split; [reflexivity|constructor].
  - intros s1 s2 s3 (Hp1 & new1 & Ho1 & Hn1) (Hp2 & new2 & Ho2 & Hn2).
    split; [congruence|]. exists (new1 ++ new2).
    rewrite Ho2, Ho1, app_assoc. split; [reflexivity|].
    apply Forall_app. split; [exact Hn1|]. rewrite <- Hp1. exact Hn2.
Qed.

#[local] Instance disk_kept_preorder : PreOrder disk_kept.
Proof. split; unfold disk_kept; [intros s|intros s1 s2 s3 H1 H2]; congruence. Qed.

#[local] Instance store_kept_preorder : PreOrder store_kept.
Proof.
  split; unfold store_kept.
  - intros s. auto.
  - intros s1 s2 s3 (? & ? & ?) (? & ? & ?). repeat split; congruence.
Qed.

Lemma ambient_kept_same (s s' : State) :
  process_env s' = process_env s → objs s' = objs s → ambient_kept s s'.
Proof.
  intros Hp Ho. split; [exact Hp|]. exists []. rewrite app_nil_r.
  split; [exact Ho|constructor].
Qed.

Lemma ambient_kept_envForPlatform : keeps ambient_kept envForPlatform.
Proof.
  intros s. rewrite envForPlatform_run. split; [reflexivity|].
  exists [overlay (process_env s)]. split; [reflexivity|]. repeat constructor.
Qed.

(** X5: a whole launch never changes [process.env] nor an object that
    existed before it: whatever the resolver, the installer and the
    supervisor do, the only objects allocated are new ones, and each of
    them holds the resolved environment. *)
Theorem launchRuntime_ambient (s : State) :
  let s' := (launchRuntime s).2 in
  process_env s' = process_env s
  ∧ ∃ new, objs s' = objs s ++ new ∧ Forall (fun o => o = resolvedEnv s) new.
Proof.
  assert (H : keeps ambient_kept launchRuntime).
  { apply (keeps_launchRuntime ambient_kept).
    - intros a s0. apply ambient_kept_same; reflexivity.
    - apply ambient_kept_envForPlatform.
    - intros cmd args opts s0. apply ambient_kept_same; reflexivity.
    - intros path content s0. apply ambient_kept_same; reflexivity. }
  destruct (H s) as (Hp & new & Ho & Hn). split; [exact Hp|].
  exists new. split; [exact Ho|].
  eapply Forall_impl; [exact Hn|]. intros o ->. symmetry. apply resolvedEnv_overlay.
Qed.

(** *** The installer's stages *)

Lemma downloadRest_run s :
  downloadRest s =
  match release_url with
  | Pending => (Pending, s)
  | Rejected e => (Rejected e, s)
  | Fulfilled url =>
      let s1 := (emit (ADownloadTarball url "fernspielapparat.tar.gz") s).2 in
      match fetch_tarball url "fernspielapparat.tar.gz" with
      | Pending => (Pending, s1)
      | Rejected e => (Rejected e, s1)
      | Fulfilled tarPath => extractExecutableToUserDir tarPath s1
      end
  end.
Proof.
  unfold downloadRest, then1, then2. eff.
  destruct release_url as [|url|e]; try reflexivity. simpl.
  destruct (fetch_tarball url _) as [|tarPath|e]; reflexivity.
Qed.

Lemma downloadBinary_run s :
  downloadBinary s = downloadRest (emit AReleaseTarballUrl s).2.
Proof. reflexivity. Qed.

Lemma extract_result_state tarPath s s' :
  (extractExecutableToUserDir tarPath s).1 = (extractExecutableToUserDir tarPath s').1.
Proof.
  rewrite !extractExecutableToUserDir_run.
  destruct (damage _); [reflexivity|]. destruct (last _); reflexivity.
Qed.

Lemma extract_emitted_state tarPath s s' :
  emitted (extractExecutableToUserDir tarPath) s
  = emitted (extractExecutableToUserDir tarPath) s'.
Proof.
  unfold emitted. rewrite !extractExecutableToUserDir_run.
  destruct (damage _); [|destruct (last _)];
    cbn [snd trace extracted console_log emit];
    rewrite <- ?app_assoc, !drop_app_length; reflexivity.
Qed.

Lemma extract_trace tarPath s :
  trace (extractExecutableToUserDir tarPath s).2
  = trace s ++ emitted (extractExecutableToUserDir tarPath) s.
Proof.
  destruct (appends_extractExecutableToUserDir tarPath s) as (acts & Ht & _).
  rewrite (emitted_of _ _ _ Ht). exact Ht.
Qed.









(** X7: the stages of the installer run in order and each stops the
    later ones when it fails or does not settle.  The release is looked
    up first; the download is started only for a release that was
    found, under the file name [fernspielapparat.tar.gz]; the archive
    is opened only when the download succeeded.  An error of the lookup
    or of the download is passed on as it is, and the result of the
    extraction is the result of the installer. *)
Theorem downloadBinary_stages (s : State) :
  let file := "fernspielapparat.tar.gz" in
  let result := (downloadBinary s).1 in
  let acts := emitted downloadBinary s in
  match release_url with
  | Pending => result = Pending ∧ acts = [AReleaseTarballUrl]
  | Rejected e => result = Rejected e ∧ acts = [AReleaseTarballUrl]
  | Fulfilled url =>
      match fetch_tarball url file with
      | Pending =>
          result = Pending ∧ acts = [AReleaseTarballUrl; ADownloadTarball url file]
      | Rejected e =>
          result = Rejected e ∧ acts = [AReleaseTarballUrl; ADownloadTarball url file]
      | Fulfilled tarPath =>
          result = (extractExecutableToUserDir tarPath s).1
          ∧ acts = AReleaseTarballUrl :: ADownloadTarball url file
                     :: emitted (extractExecutableToUserDir tarPath) s
      end
  end.
Proof.
  intros file result acts. subst result acts file.
  rewrite downloadBinary_run, downloadRest_run.
  destruct release_url as [|url|e] eqn:Hrel; cbn [fst snd].
  - split; [reflexivity|]. apply emitted_of.
    rewrite downloadBinary_run, downloadRest_run, Hrel. reflexivity.
  - destruct (fetch_tarball url "fernspielapparat.tar.gz") as [|tarPath|e] eqn:Hfetch;
      cbn [fst snd].
    + split; [reflexivity|]. apply emitted_of.
      rewrite downloadBinary_run, downloadRest_run, Hrel. cbn zeta. rewrite Hfetch.
      cbn [snd emit trace]. rewrite <- app_assoc. reflexivity.
    + split; [apply extract_result_state|]. apply emitted_of.
      rewrite downloadBinary_run, downloadRest_run, Hrel. cbn zeta. rewrite Hfetch.
      rewrite extract_trace. cbn [snd emit trace]. rewrite <- !app_assoc.
      rewrite (extract_emitted_state tarPath _ s). reflexivity.
    + split; [reflexivity|]. apply emitted_of.
      rewrite downloadBinary_run, downloadRest_run, Hrel. cbn zeta. rewrite Hfetch.
      cbn [snd emit trace]. rewrite <- app_assoc. reflexivity.
  - split; [reflexivity|]. apply emitted_of.
    rewrite downloadBinary_run, downloadRest_run, Hrel. reflexivity.
Qed.

(** *** The route from the resolver to the server *)

Lemma store_kept_emit a : keeps store_kept (emit a).
Proof. intros s. repeat split. Qed.

Lemma store_kept_write_file path content : keeps store_kept (write_file path content).
Proof. intros s. repeat split. Qed.

Lemma getBinary_store s :
  process_env (getBinary s).2 = process_env s
  ∧ objs (getBinary s).2 = objs s ++ [overlay (process_env s)]
  ∧ children (getBinary s).2 = S (children s).
Proof.
  rewrite getBinary_run.
  assert (Hp : store_kept (probe_started s) (fernspielapparatVersionOnPath s).2).
  { rewrite fernspielapparatVersionOnPath_run.
    pose proof (keeps_deliver store_kept versionHandler version_child
                  {| output := ""; probed := Pending |}
                  (keeps_versionHandler store_kept store_kept_emit)
                  (probe_started s)) as H.
    destruct (deliver _ _ _ _) as [v s']. exact H. }
  destruct (fernspielapparatVersionOnPath s) as [p s1]. cbn [fst snd] in *.
  assert (Ht : store_kept s1
                 (then2 p fernspielapparatOnPath
                    (fun _ => fernspielapparatPathInUserDir) s1).2).
  { apply (keeps_then2 store_kept).
    - apply (keeps_fernspielapparatOnPath store_kept store_kept_emit).
    - intros _. apply (keeps_fernspielapparatPathInUserDir store_kept store_kept_emit). }
  destruct Hp as (Hp1 & Hp2 & Hp3), Ht as (Ht1 & Ht2 & Ht3).
  rewrite Ht1, Ht2, Ht3, Hp1, Hp2, Hp3. repeat split.
Qed.

Lemma downloadBinary_store s : store_kept s (downloadBinary s).2.
Proof. apply (keeps_downloadBinary store_kept store_kept_emit store_kept_write_file). Qed.

Lemma appends_getBinary_no_server :
  appends (fun a => is_server_start a = false) getBinary.
Proof.
  unfold getBinary, fernspielapparatVersionOnPath, versionHandler, then2,
    fernspielapparatOnPath, fernspielapparatPathInUserDir, console_log.
  appends_tac.
Qed.

Lemma appends_downloadBinary_no_server :
  appends (fun a => is_server_start a = false) downloadBinary.
Proof.
  unfold downloadBinary, then1, then2, extractExecutableToUserDir, decompress,
    extractEntry, console_log.
  appends_tac.
Qed.




Lemma getBinary_result s :
  (getBinary s).1 =
  match (fernspielapparatVersionOnPath s).1 with
  | Pending => Pending
  | Fulfilled _ => Fulfilled executableName
  | Rejected _ =>
      let perms := if platform =? "win32" then R_OK else Z.lor R_OK X_OK in
      match fs_access userBinaryPath perms with
      | None => Fulfilled userBinaryPath
      | Some msg =>
          Rejected (mkError ("Lacking execution permissions for runtime binary at: "
                             +:+ userBinaryPath +:+ ", error: " +:+ msg))
      end
  end.
Proof.
  rewrite getBinary_run.
  destruct (fernspielapparatVersionOnPath s) as [[|v|e] s1]; cbn [fst snd then2].
  - reflexivity.
  - reflexivity.
  - unfold fernspielapparatPathInUserDir. cbv zeta. eff. unfold emit, console_log, emit.
    destruct (fs_access _ _); reflexivity.
Qed.

Lemma downloadBinary_fulfilled_inv s p :
  (downloadBinary s).1 = Fulfilled p →
  ∃ tarPath e, last (matching (entries (tarball tarPath))) = Some e
               ∧ p = destination e.
Proof.
  rewrite downloadBinary_run, downloadRest_run.
  destruct release_url as [|url|e]; try discriminate. cbv zeta.
  destruct (fetch_tarball url _) as [|tarPath|e]; try discriminate.
  rewrite extractExecutableToUserDir_run.
  destruct (damage _); [discriminate|].
  destruct (last _) as [e1|] eqn:E; [|discriminate].
  intros [= <-]. eauto.
Qed.

Lemma launchRuntime_route s :
  ∃ a0 s2,
    trace s2 = trace s ++ a0
    ∧ Forall (fun a => is_server_start a = false) a0
    ∧ process_env s2 = process_env s
    ∧ objs s2 = objs s ++ [overlay (process_env s)]
    ∧ children s2 = S (children s)
    ∧ ((∃ path, routed s path ∧ launchRuntime s = launchServer path s2
                ∧ ((getBinary s).1 = Fulfilled path
                   ∨ (downloadBinary (getBinary s).2).1 = Fulfilled path))
       ∨ ((∀ h, (launchRuntime s).1 ≠ Fulfilled h) ∧ (launchRuntime s).2 = s2
          ∧ ∀ e0, (getBinary s).1 = Rejected e0 →
              (launchRuntime s).1 = match (downloadBinary (getBinary s).2).1 with
                                    | Rejected e => Rejected e
                                    | _ => Pending
                                    end)).
Proof.
  rewrite launchRuntime_run. unfold routed.
  destruct (appends_getBinary_no_server s) as (a0 & Ht0 & Ha0).
  destruct (getBinary_store s) as (Hp & Ho & Hc).
  pose proof (getBinary_result s) as Hres.
  destruct (getBinary s) as [g s1]. cbn [fst snd] in *.
  destruct g as [|path|e0].
  - exists a0, s1. repeat (split; [assumption|]). right.
    split; [discriminate|]. split; [reflexivity|]. discriminate.
  - exists a0, s1. repeat (split; [assumption|]). left. exists path.
    split; [|split; [reflexivity|left; reflexivity]].
    destruct (fernspielapparatVersionOnPath s).1; [discriminate| |].
    + congruence.
    + cbv zeta in Hres. destruct (fs_access _ _); [discriminate|]. left. congruence.
  - change (downloadRest (emit AReleaseTarballUrl s1).2) with (downloadBinary s1).
    destruct (appends_downloadBinary_no_server s1) as (a1 & Ht1 & Ha1).
    destruct (downloadBinary_store s1) as (Hp1 & Ho1 & Hc1).
    pose proof (downloadBinary_fulfilled_inv s1) as Hinv.
    destruct (downloadBinary s1) as [q s2]. cbn [fst snd] in *.
    exists (a0 ++ a1), s2.
    split; [rewrite Ht1, Ht0, app_assoc; reflexivity|].
    split; [apply Forall_app; split; assumption|].
    split; [congruence|]. split; [congruence|]. split; [congruence|].
    destruct q as [|path|e].
    + right. split; [discriminate|]. split; [reflexivity|]. reflexivity.
    + left. exists path. split; [|split; [reflexivity|right; reflexivity]].
      destruct (fernspielapparatVersionOnPath s).1; [discriminate|discriminate|].
      right. apply Hinv. reflexivity.
    + right. split; [discriminate|]. split; [reflexivity|]. reflexivity.
Qed.

Lemma count_slash_under a b : count_char "/" (a +:+ "/" +:+ b) ≠ 0.
Proof.
  induction a as [|c a IH].
  - rewrite sapp_nil_l. simpl. lia.
  - rewrite sapp_cons. simpl. lia.
Qed.

Lemma under_dir_cwdFor a b :
  cwdFor (a +:+ "/" +:+ b) = Some (dirname (a +:+ "/" +:+ b)).
Proof.
  pose proof (count_slash_under a b) as H.
  unfold cwdFor. simpl.
  destruct (String.eqb_spec (a +:+ "/" +:+ b) "") as [E|_];
    [rewrite E in H; contradiction|].
  destruct (String.eqb_spec (a +:+ "/" +:+ b) "fernspielapparat") as [E|_];
    [rewrite E in H; contradiction|].
  destruct (String.eqb_spec (a +:+ "/" +:+ b) "fernspielapparat.exe") as [E|_];
    [rewrite E in H; contradiction|].
  reflexivity.
Qed.

Lemma executableName_cwdFor : cwdFor executableName = None.
Proof. unfold executableName. destruct (platform =? "win32"); reflexivity. Qed.

Lemma routed_cwdFor s path :
  routed s path →
  cwdFor path = match (fernspielapparatVersionOnPath s).1 with
                | Rejected _ => Some (dirname path)
                | _ => None
                end.
Proof.
  unfold routed. destruct (fernspielapparatVersionOnPath s).1 as [|v|e0].
  - intros [].
  - intros ->. apply executableName_cwdFor.
  - intros [->|(tarPath & e & _ & ->)]; apply under_dir_cwdFor.
Qed.

(** X9: the working directory of the server follows the route by which
    its binary was found.  Every spawn in server mode a launch makes
    runs the platform's bare executable name with the second
    environment object of the launch.  When the version probe resolved
    the working directory is left as it is; when the probe was
    rejected it is the directory of the path the resolver or the
    installer produced, which is either the fixed path in the install
    directory or the destination of the last entry the extraction let
    through.  While the probe is pending no server is started. *)
Theorem launchRuntime_server_cwd (s : State) (cmd : string) (opts : SpawnOptions) :
  ASpawn cmd ["-vvvv"; "-s"] opts ∈ emitted launchRuntime s →
  cmd = executableName
  ∧ opt_env opts = Obj (S (length (objs s)))
  ∧ match (fernspielapparatVersionOnPath s).1 with
    | Pending => False
    | Fulfilled _ => opt_cwd opts = None
    | Rejected _ =>
        ∃ path, opt_cwd opts = Some (dirname path)
                ∧ (path = userBinaryPath
                   ∨ ∃ tarPath e,
                       last (matching (entries (tarball tarPath))) = Some e
                       ∧ path = destination e)
    end.
Proof.
  destruct (launchRuntime_route s) as (a0 & s2 & Ht & Ha0 & _ & Ho & _ & Hroute).
  assert (Hno : ∀ acts, Forall (fun a => is_server_start a = false) acts →
                        ASpawn cmd ["-vvvv"; "-s"] opts ∉ acts).
  { intros acts Hall Hin. rewrite Forall_forall in Hall.
    specialize (Hall _ Hin). discriminate. }
  destruct Hroute as [(path & Hrouted & Hrun & _)|(_ & Hs2 & _)].
  - destruct (launchServer_trace path s2) as (acts & Htr & _ & Hacts).
    rewrite <- Hrun, Ht, <- app_assoc in Htr.
    rewrite (emitted_of _ _ _ Htr). intros Hin.
    apply elem_of_app in Hin as [Hin|Hin]; [destruct (Hno a0 Ha0 Hin)|].
    apply elem_of_cons in Hin as [Heq|Hin].
    + injection Heq as -> ->. cbn [opt_env opt_cwd].
      split; [reflexivity|]. split.
      { rewrite Ho, length_app. simpl. f_equal. lia. }
      rewrite (routed_cwdFor s path Hrouted). unfold routed in Hrouted.
      destruct (fernspielapparatVersionOnPath s).1; [exact Hrouted|reflexivity|].
      exists path. split; [reflexivity|exact Hrouted].
    + apply elem_of_cons in Hin as [Heq|Hin]; [discriminate|].
      rewrite Forall_forall in Hacts. specialize (Hacts _ Hin). discriminate.
  - rewrite <- Hs2 in Ht. rewrite (emitted_of _ _ _ Ht). intros Hin.
    destruct (Hno a0 Ha0 Hin).
Qed.

(** X10: a failure of the installer ends the launch.  When the
    resolver found no binary and the installer does not resolve, the
    launch is rejected with the installer's own error (the resolver's
    error is dropped), or stays pending when a stage of the installer
    never settles; no server is spawned, the prober is not started,
    and the only child of the launch is that of the version probe. *)
Theorem launchRuntime_install_failure (s : State) (e0 : Error) :
  (getBinary s).1 = Rejected e0 →
  (∀ path, (downloadBinary (getBinary s).2).1 ≠ Fulfilled path) →
  (launchRuntime s).1 = match (downloadBinary (getBinary s).2).1 with
                        | Rejected e => Rejected e
                        | _ => Pending
                        end
  ∧ Forall (fun a => is_server_spawn a = false ∧ is_wait_port a = false)
      (emitted launchRuntime s)
  ∧ children (launchRuntime s).2 = S (children s).
Proof.
  intros Hg Hq.
  destruct (launchRuntime_route s) as (a0 & s2 & Ht & Ha0 & _ & _ & Hc & Hroute).
  destruct Hroute as [(path & _ & _ & [Hf|Hf])|(_ & Hs2 & Hres)].
  - rewrite Hg in Hf. discriminate.
  - destruct (Hq path Hf).
  - split; [apply (Hres e0 Hg)|]. split; [|rewrite Hs2; exact Hc].
    rewrite <- Hs2 in Ht. rewrite (emitted_of _ _ _ Ht).
    eapply Forall_impl; [exact Ha0|]. intros a Ha. unfold is_server_start in Ha.
    apply orb_false_iff in Ha. exact Ha.
Qed.

(** *** When a launch stays pending, and the errors it ends with *)

Lemma deliver_version_all_output evs v s :
  Forall (fun ev => is_output ev = true) evs →
  deliver versionHandler evs v s
  = ({| output := output v +:+ collect evs; probed := probed v |}, s).
Proof.
  intros H. rewrite <- (app_nil_r evs) at 1.
  rewrite (deliver_version_output evs [] v s H). reflexivity.
Qed.

Lemma deliver_version_pending_inv evs out s :
  probed (deliver versionHandler evs {| output := out; probed := Pending |} s).1
  = Pending →
  Forall (fun ev => is_output ev = true) evs.
Proof.
  revert out s. induction evs as [|ev evs IH]; intros out s; simpl; [constructor|].
  eff. destruct ev as [d|d|msg|code].
  - simpl. intros H. constructor; [reflexivity|]. apply IH in H. exact H.
  - simpl. intros H. constructor; [reflexivity|]. apply IH in H. exact H.
  - simpl. rewrite deliver_version_settled by reflexivity. discriminate.
  - pose proof (versionHandler_exit out code s) as H1.
    pose proof (exit_outcome_settled code out) as H2.
    destruct (versionHandler _ (ExitEvent code) s) as [v1 s1]; simpl in *.
    rewrite deliver_version_settled; rewrite H1; [|exact H2].
    intros H. rewrite H in H2. discriminate.
Qed.

Lemma probe_started_trace s :
  trace (probe_started s)
  = trace s ++ [ASpawn executableName ["--version"]
                  {| opt_env := Obj (length (objs s)); opt_cwd := None |}].
Proof. reflexivity. Qed.

(** X11: the version probe has no time limit.  It stays pending exactly
    when its child neither exits nor fails to start, whatever the child
    prints; the resolver and the whole launch then stay pending too,
    and all the launch has done is to spawn the probe's child: the
    install directory is not checked, nothing is downloaded and no
    server is started. *)
Theorem version_probe_pending (s : State) :
  ((fernspielapparatVersionOnPath s).1 = Pending
   ↔ Forall (fun ev => is_output ev = true) version_child)
  ∧ ((fernspielapparatVersionOnPath s).1 = Pending →
       (getBinary s).1 = Pending
       ∧ (launchRuntime s).1 = Pending
       ∧ emitted launchRuntime s
         = [ASpawn executableName ["--version"]
              {| opt_env := (envForPlatform s).1; opt_cwd := None |}]).
Proof.
  assert (Hiff : (fernspielapparatVersionOnPath s).1 = Pending
                 ↔ Forall (fun ev => is_output ev = true) version_child).
  { rewrite fernspielapparatVersionOnPath_run. split.
    - intros H. apply (deliver_version_pending_inv version_child "" (probe_started s)).
      destruct (deliver _ _ _ _) as [v s']. exact H.
    - intros H. rewrite (deliver_version_all_output _ _ _ H). reflexivity. }
  split; [exact Hiff|]. intros Hp.
  pose proof (getBinary_result s) as Hg. rewrite Hp in Hg.
  split; [exact Hg|].
  rewrite launchRuntime_run, Hg. split; [reflexivity|].
  apply emitted_of. rewrite launchRuntime_run, Hg. cbn [snd].
  rewrite getBinary_run, Hp. cbn [then2 mret eff_ret snd].
  apply Hiff in Hp. rewrite fernspielapparatVersionOnPath_run.
  rewrite (deliver_version_all_output _ _ _ Hp). cbn [snd].
  rewrite probe_started_trace, envForPlatform_run. reflexivity.
Qed.

(** X12: a child that cannot be started rejects the version probe with
    the error "No fernspielapparat on path, error: " followed by the
    message of the spawn error, whatever the child printed before and
    whatever it does afterwards: a later exit, even with code 0 and
    well-formed output, does not resolve the probe. *)
Theorem version_probe_spawn_error (pre rest : list ChildEvent) (msg : string)
    (s : State) :
  version_child = pre ++ ErrorEvent msg :: rest →
  Forall (fun ev => is_output ev = true) pre →
  (fernspielapparatVersionOnPath s).1
  = Rejected (mkError ("No fernspielapparat on path, error: " +:+ msg)).
Proof.
  intros Hev Hpre. rewrite fernspielapparatVersionOnPath_run, Hev.
  rewrite (deliver_version_output pre _ _ _ Hpre). simpl. eff.
  match goal with
  | |- context [deliver versionHandler rest ?v ?st] =>
      pose proof (deliver_version_settled rest v st eq_refl) as H;
      destruct (deliver versionHandler rest v st) as [v' s']
  end.
  exact H.
Qed.

Lemma deliver_launch_rejected_inv server evs v s e :
  (∀ e', launch v ≠ Rejected e') →
  launch (deliver (launchHandler server) evs v s).1 = Rejected e →
  ∃ ev, ev ∈ evs ∧ firstOutcome server ev = Rejected e.
Proof.
  revert v s. induction evs as [|ev evs IH]; intros v s Hv; simpl.
  - intros H. destruct (Hv e H).
  - eff. destruct (launchHandler server v ev s) as [v1 s1] eqn:E.
    assert (Hl : launch (launchHandler server v ev s).1 = launch v1)
      by (rewrite E; reflexivity).
    destruct (launch v1) as [|h1|e1] eqn:E1.
    + intros H. apply IH in H as (ev' & Hin & Hout); [|congruence].
      exists ev'. split; [apply list_elem_of_further, Hin|exact Hout].
    + intros H. apply IH in H as (ev' & Hin & Hout); [|congruence].
      exists ev'. split; [apply list_elem_of_further, Hin|exact Hout].
    + rewrite deliver_launch_settled by (rewrite E1; reflexivity). rewrite E1.
      intros [= <-]. exists ev. split; [apply list_elem_of_here|].
      destruct ev as [[d|d|msg|code]| |]; simpl in Hl.
      * destruct (Hv e1 Hl).
      * destruct (Hv e1 Hl).
      * destruct (launch v) eqn:Ev; simpl in Hl;
          [exact Hl|discriminate|destruct (Hv e eq_refl)].
      * revert Hl. eff. unfold console_log, emit.
        destruct (truthy_code code), (starting v); simpl; intros Hl;
          try (destruct (Hv e1 Hl));
          (destruct (launch v) eqn:Ev; simpl in Hl;
             [exact Hl|discriminate|destruct (Hv e eq_refl)]).
      * destruct (launch v) eqn:Ev; simpl in Hl;
          [discriminate|discriminate|destruct (Hv e eq_refl)].
      * destruct (launch v) eqn:Ev; simpl in Hl;
          [exact Hl|discriminate|destruct (Hv e eq_refl)].
Qed.

Lemma launchServer_rejected_inv path s e :
  (launchServer path s).1 = Rejected e →
  (∃ code, e = mkError ("fernspielapparat unexpected exit at startup with code "
                        +:+ code_to_string code))
  ∨ (∃ msg, e = mkError ("fernspielapparat could not be started, error: " +:+ msg))
  ∨ e = mkError
          "fernspielapparat server not available on port 38397 after 5 seconds, giving up.".
Proof.
  rewrite launchServer_run.
  pose proof (deliver_launch_rejected_inv (Child (children s)) launchTimeline
                {| starting := true; launch := Pending |}
                (launchStarted path s) e) as H.
  destruct (deliver _ _ _ _) as [v s']. cbn [fst] in *.
  intros Hv. destruct (H ltac:(discriminate) Hv) as (ev & _ & Hout).
  destruct ev as [[d|d|msg|code]| |]; simpl in Hout; try discriminate.
  - right. left. exists msg. congruence.
  - left. exists code. congruence.
  - right. right. injection Hout as <-. reflexivity.
Qed.

Lemma downloadBinary_rejected_inv s e :
  (downloadBinary s).1 = Rejected e →
  release_url = Rejected e
  ∨ (∃ url, release_url = Fulfilled url
            ∧ fetch_tarball url "fernspielapparat.tar.gz" = Rejected e)
  ∨ (∃ msg, e = mkError ("Failed to decompress release, error: " +:+ msg +:+ "."))
  ∨ e = mkError "Could not find executable in tarball".
Proof.
  rewrite downloadBinary_run, downloadRest_run.
  destruct release_url as [|url|e1]; [discriminate| |intros [= ->]; auto].
  cbv zeta.
  destruct (fetch_tarball url _) as [|tarPath|e1] eqn:Hf; [discriminate| |].
  - rewrite extractExecutableToUserDir_run.
    destruct (damage _) as [msg|]; [intros [= <-]; eauto 6|].
    destruct (last _); [discriminate|]. intros [= <-]. auto.
  - intros [= ->]. right. left. eauto.
Qed.

(** X13: the errors a launch can end with.  A rejected [launchRuntime]
    carries either an error of the installer (the error of the release
    lookup or of the download as it came, "Failed to decompress
    release, error: ...", or "Could not find executable in tarball")
    or one of the three errors of the supervisor (unexpected exit at
    startup, could not be started, server not available on port 38397
    after 5 seconds).  The errors of the resolver (of the version probe
    and of the permission check) never reach the caller. *)
Theorem launchRuntime_errors (s : State) (e : Error) :
  (launchRuntime s).1 = Rejected e →
  release_url = Rejected e
  ∨ (∃ url, release_url = Fulfilled url
            ∧ fetch_tarball url "fernspielapparat.tar.gz" = Rejected e)
  ∨ (∃ msg, e = mkError ("Failed to decompress release, error: " +:+ msg +:+ "."))
  ∨ e = mkError "Could not find executable in tarball"
  ∨ (∃ code, e = mkError ("fernspielapparat unexpected exit at startup with code "
                          +:+ code_to_string code))
  ∨ (∃ msg, e = mkError ("fernspielapparat could not be started, error: " +:+ msg))
  ∨ e = mkError
          "fernspielapparat server not available on port 38397 after 5 seconds, giving up.".
Proof.
  intros He.
  destruct (launchRuntime_route s) as (a0 & s2 & _ & _ & _ & _ & _ & Hroute).
  destruct Hroute as [(path & _ & Hrun & _)|(_ & _ & Hres)].
  - rewrite Hrun in He. apply launchServer_rejected_inv in He.
    destruct He as [H|[H|H]]; auto 10.
  - rewrite launchRuntime_run in He.
    destruct (getBinary s) as [[|path|e0] s1] eqn:Hg; cbn [fst snd] in *.
    + discriminate.
    + specialize (Hres e); clear Hres.
      apply launchServer_rejected_inv in He. destruct He as [H|[H|H]]; auto 10.
    + change (downloadRest (emit AReleaseTarballUrl s1).2) with (downloadBinary s1) in He.
      pose proof (downloadBinary_rejected_inv s1) as Hinv.
      destruct (downloadBinary s1) as [[|path|e1] s3]; cbn [fst snd] in *.
      * discriminate.
      * apply launchServer_rejected_inv in He. destruct He as [H|[H|H]]; auto 10.
      * injection He as <-. destruct (Hinv e1 eq_refl) as [H|[H|[H|H]]]; auto 10.
Qed.

(** X14: the only ways a launch never settles.  [launchRuntime] stays
    pending exactly when the version probe stays pending, or when the
    resolver found no binary and the release lookup or the download
    never settles; once the server is launched the launch always
    settles, by the prober's deadline at the latest. *)
Theorem launchRuntime_pending (s : State) :
  (launchRuntime s).1 = Pending ↔
  (fernspielapparatVersionOnPath s).1 = Pending
  ∨ ((∃ e0, (getBinary s).1 = Rejected e0)
     ∧ (release_url = Pending
        ∨ ∃ url, release_url = Fulfilled url
                 ∧ fetch_tarball url "fernspielapparat.tar.gz" = Pending)).
Proof.
  pose proof (getBinary_result s) as Hres.
  rewrite launchRuntime_run.
  pose proof launchServer_not_pending as Hls.
  destruct (getBinary s) as [[|path|e0] s1]; cbn [fst snd] in *.
  - split; [intros _|reflexivity]. left.
    destruct (fernspielapparatVersionOnPath s).1; [reflexivity|discriminate|].
    cbv zeta in Hres. destruct (fs_access _ _); discriminate.
  - split.
    + intros H. destruct (Hls _ _ H).
    + intros [H|[[e0 [=]] _]]. rewrite H in Hres. discriminate.
  - rewrite downloadRest_run.
    assert (Hnp : (fernspielapparatVersionOnPath s).1 ≠ Pending).
    { intros H. rewrite H in Hres. discriminate. }
    destruct release_url as [|url|e]; cbn [fst snd].
    + split; [intros _; right; split; eauto|reflexivity].
    + cbv zeta. destruct (fetch_tarball url _) as [|tarPath|e] eqn:Hf; cbn [fst snd].
      * split; [intros _; right; split; eauto|reflexivity].
      * split.
        -- intros H. exfalso. revert H. rewrite extractExecutableToUserDir_run.
           destruct (damage _); [discriminate|].
           destruct (last _); [apply Hls|discriminate].
        -- intros [H|[_ [[=]|(url' & [= <-] & H)]]]; [destruct (Hnp H)|].
           rewrite Hf in H. discriminate.
      * split; [discriminate|].
        intros [H|[_ [[=]|(url' & [= <-] & H)]]]; [destruct (Hnp H)|].
        rewrite Hf in H. discriminate.
    + split; [discriminate|].
      intros [H|[_ [[=]|(url' & [=] & _)]]]. destruct (Hnp H).
Qed.

(** *** An archive that cannot be read to its end *)

(** X15: when the archive reader reports an error (with a non-empty
    message), the extraction is rejected with "Failed to decompress
    release, error: <message>." even when an executable had been found
    before the error; the entries the recognition test accepted up to
    then stay written to the install directory, and no "extracted
    binary" line is logged. *)
Theorem extract_damaged (tarPath msg : string) (s : State) :
  damage (tarball tarPath) = Some msg →
  msg ≠ "" →
  let s' := (extractExecutableToUserDir tarPath s).2 in
  (extractExecutableToUserDir tarPath s).1
    = Rejected (mkError ("Failed to decompress release, error: " +:+ msg +:+ "."))
  ∧ disk s' = diskAfter (disk s) (matching (entries (tarball tarPath)))
  ∧ emitted (extractExecutableToUserDir tarPath) s
    = ADecompress tarPath userDir
        :: writeActions (matching (entries (tarball tarPath))).
Proof.
  intros Hd _ s'. subst s'. unfold emitted.
  rewrite extractExecutableToUserDir_run, Hd. cbn [fst snd extracted disk trace].
  split; [reflexivity|]. split; [reflexivity|]. apply drop_app_length.
Qed.

(** *** What the resolved environment guarantees *)

Lemma contains_vlc_libDir amb pre :
  libraryPathVar ≠ None → contains_ci "vlc" (pre +:+ libDirFor amb).
Proof.
  unfold libraryPathVar, libDirFor.
  destruct (platform =? "darwin").
  - intros _. exists (pre +:+ "/Applications/"), "VLC",
      ".app/Contents/MacOS:/Applications/VLC.app/Contents/MacOS/lib".
    split; [|reflexivity]. rewrite sapp_assoc. reflexivity.
  - destruct (platform =? "win32"); [|intros H; destruct (H eq_refl)].
    intros _.
    exists (pre +:+ to_string (amb !! "ProgramFiles") +:+ "\VideoLAN\"), "VLC", "".
    split; [|reflexivity]. rewrite !sapp_assoc. reflexivity.
Qed.

Lemma truthy_pluginDir amb :
  libraryPathVar ≠ None → truthy (Some (pluginDirFor amb)) = true.
Proof.
  unfold libraryPathVar, pluginDirFor.
  destruct (platform =? "darwin"); [reflexivity|].
  destruct (platform =? "win32"); [|intros H; destruct (H eq_refl)].
  intros _. destruct (to_string _); reflexivity.
Qed.

Lemma overlay_library amb var :
  libraryPathVar = Some var → mentions_vlc (overlay amb !! var).
Proof.
  intros Hvar.
  assert (Hne : libraryPathVar ≠ None) by congruence.
  pose proof (contains_vlc_libDir amb) as Hlib. specialize (fun pre => Hlib pre Hne).
  revert Hvar. unfold libraryPathVar, overlay.
  destruct (platform =? "darwin"); [|destruct (platform =? "win32"); [|discriminate]].
  - intros [= <-]. rewrite overlayPlugins_other by discriminate.
    destruct (test vlcRegex _) eqn:E; simpl.
    + apply test_vlc_mentions. exact E.
    + rewrite lookup_insert_eq. eexists. split; [reflexivity|apply Hlib].
  - intros [= <-]. rewrite overlayPlugins_other by discriminate.
    destruct (test vlcRegex _) eqn:E; simpl.
    + apply test_vlc_mentions. exact E.
    + rewrite lookup_insert_eq. eexists. split; [reflexivity|].
      rewrite <- sapp_assoc. apply Hlib.
Qed.

Lemma overlayPlugins_truthy amb env :
  libraryPathVar ≠ None → truthy (overlayPlugins amb env !! pluginDirVar) = true.
Proof.
  intros Hne. unfold overlayPlugins, pluginDirVar.
  destruct (truthy (env !! "VLC_PLUGIN_PATH")) eqn:E; simpl; [exact E|].
  rewrite lookup_insert_eq. apply truthy_pluginDir, Hne.
Qed.

Lemma overlay_plugins amb :
  libraryPathVar ≠ None → truthy (overlay amb !! pluginDirVar) = true.
Proof.
  intros Hne. pose proof (overlayPlugins_truthy amb) as H.
  specialize (fun env => H env Hne). revert Hne. unfold libraryPathVar, overlay.
  destruct (platform =? "darwin"); [intros _; apply H|].
  destruct (platform =? "win32"); [intros _; apply H|]. intros Hne. destruct (Hne eq_refl).
Qed.


(** X17: resolving is idempotent.  In a process whose environment is
    already a resolved one, the environment resolver returns that
    environment unchanged: the default directory is not appended a
    second time and the plugin directory is kept. *)
Theorem resolvedEnv_idempotent (s : State) :
  resolvedEnv {| process_env := resolvedEnv s; objs := objs s; disk := disk s;
                 children := children s; trace := trace s |}
  = resolvedEnv s.
Proof.
  rewrite !resolvedEnv_overlay. cbn [process_env].
  pose proof (overlay_library (process_env s)) as Hlib.
  pose proof (overlay_plugins (process_env s)) as Hplug.
  unfold overlay at 1. unfold libraryPathVar, pluginDirVar in *.
  destruct (platform =? "darwin").
  - specialize (Hlib _ eq_refl). apply test_vlc_mentions in Hlib.
    rewrite Hlib. simpl. unfold overlayPlugins. rewrite Hplug by discriminate.
    reflexivity.
  - destruct (platform =? "win32"); [|reflexivity].
    specialize (Hlib _ eq_refl). apply test_vlc_mentions in Hlib.
    rewrite Hlib. simpl. unfold overlayPlugins. rewrite Hplug by discriminate.
    reflexivity.
Qed.

(** X18: on win32 an unset [Path] is not treated as empty.  When the
    ambient environment has no variable spelled [Path], the resolved
    [Path] is the text "undefined", the delimiter and the guessed
    directory of VLC, where an unset [ProgramFiles] is rendered as
    "undefined" as well. *)
Theorem envForPlatform_win32_unset_path (s : State) :
  platform = "win32" →
  process_env s !! "Path" = None →
  resolvedEnv s !! "Path"
  = Some ("undefined;"
          +:+ match process_env s !! "ProgramFiles" with
              | Some dir => dir
              | None => "undefined"
              end
          +:+ "\VideoLAN\VLC").
Proof.
  intros Hplat Hpath. rewrite resolvedEnv_overlay.
  unfold overlay, delimiter, libDirFor. rewrite Hplat, Hpath. simpl.
  rewrite overlayPlugins_other by discriminate.
  rewrite lookup_insert_eq. unfold to_string.
  destruct (process_env s !! "ProgramFiles"); reflexivity.
Qed.

(** *** From the installer back to the resolver *)




End Facts.

(** ** Concrete launches *)



(** The premise of C2 holds in a world where the server listens from
    300 milliseconds on, and the launch resolves there. *)
Lemma launchServer_probe_witness :
  Forall (fun te => is_output te.2 = true
                    ∨ ((probeSettlement (world := world_listening)).1 < te.1)%Z)
    (server_child (World := world_listening))
  ∧ (launchServer (host := linux_host) (world := world_listening)
       "fernspielapparat" (fresh ∅)).1
    = Fulfilled {| process := Child 0; url := "ws://127.0.0.1:38397" |}.
Proof.
  assert (H : Forall (fun te => is_output te.2 = true
                    ∨ ((probeSettlement (world := world_listening)).1 < te.1)%Z)
                (server_child (World := world_listening))).
  { repeat constructor. }
  split; [exact H|].
  destruct (launchServer_probe (host := linux_host) (world := world_listening)
              "fernspielapparat" (fresh ∅) H) as (_ & _ & Hopen & _).
  apply Hopen. exists 300%Z. split; [|reflexivity].
  vm_compute. repeat constructor.
Defined.

(** The premises of C3 hold in a world where the child exits with code
    1 before the prober gives up: the launch is rejected with the exit
    code. *)
Lemma launch_settles_once_witness :
  launchTimeline (world := world_early_exit)
    = [] ++ ChildEv (ExitEvent (Some 1%Z)) :: [PortTimeout]
  ∧ (launchServer (host := linux_host) (world := world_early_exit)
       "fernspielapparat" (fresh ∅)).1
    = Rejected (mkError "fernspielapparat unexpected exit at startup with code 1").
Proof.
  assert (H : launchTimeline (world := world_early_exit)
              = [] ++ ChildEv (ExitEvent (Some 1%Z)) :: [PortTimeout]).
  { vm_compute. reflexivity. }
  split; [exact H|].
  destruct (launch_settles_once (host := linux_host) (world := world_early_exit)
              "fernspielapparat" (fresh ∅) [] [PortTimeout]
              (ChildEv (ExitEvent (Some 1%Z))) H (Forall_nil_2 _) eq_refl)
    as (_ & _ & _ & Hexit & _).
  destruct (Hexit (Some 1%Z) eq_refl) as [Hres _]. exact Hres.
Defined.

(** C4, as stated, fails: on Linux an entry that ends in
    [fernspielapparat.exe] is written under that name, not under the
    platform's executable name; and an entry whose name ends in neither
    of the two names is recognised and written, since the dot of the
    second pattern stands for any character. *)
Lemma extract_keeps_matched_name :
  executableName (host := linux_host) = "fernspielapparat"
  ∧ (extractExecutableToUserDir (host := linux_host) (world := world_windows_archive)
       "/tmp/fernspielapparat.tar.gz" (fresh ∅)).1
    = Fulfilled "/home/u/.config/weichspielapparat/fernspielapparat.exe"
  ∧ disk (extractExecutableToUserDir (host := linux_host)
            (world := world_windows_archive)
            "/tmp/fernspielapparat.tar.gz" (fresh ∅)).2
      !! "/home/u/.config/weichspielapparat/fernspielapparat.exe" = Some "MZ"
  ∧ disk (extractExecutableToUserDir (host := linux_host)
            (world := world_windows_archive)
            "/tmp/fernspielapparat.tar.gz" (fresh ∅)).2
      !! userBinaryPath (host := linux_host) = None
  ∧ ends_withb "fernspielapparat" "notes/fernspielapparat-exe" = false
  ∧ ends_withb "fernspielapparat.exe" "notes/fernspielapparat-exe" = false
  ∧ disk (extractExecutableToUserDir (host := linux_host)
            (world := world_odd_archive)
            "/tmp/fernspielapparat.tar.gz" (fresh ∅)).2
      !! "/home/u/.config/weichspielapparat/fernspielapparat.exe" = Some "notes".
Proof. repeat split; vm_compute; reflexivity. Qed.

(** C4 on an archive with two builds and a README: the README is not
    written, the build is, under the bare name. *)
Lemma extract_recognised_witness :
  (AWriteFile "/home/u/.config/weichspielapparat/README.md" "read me"
     ∉ emitted (extractExecutableToUserDir (host := linux_host)
                  (world := world_two_builds) "/tmp/fernspielapparat.tar.gz")
         (fresh ∅))
  ∧ (AWriteFile "/home/u/.config/weichspielapparat/fernspielapparat" "debug build"
       ∈ emitted (extractExecutableToUserDir (host := linux_host)
                    (world := world_two_builds) "/tmp/fernspielapparat.tar.gz")
           (fresh ∅)).
Proof.
  destruct (extract_recognised (host := linux_host) (world := world_two_builds)
              "/tmp/fernspielapparat.tar.gz" (fresh ∅))
    as (Hbare & _ & Honly & _).
  split.
  - intros Hin. apply Honly in Hin as [Hexe _]. vm_compute in Hexe. discriminate.
  - apply (Hbare {| name := "debug/fernspielapparat"; data := "debug build" |}).
    + apply list_elem_of_here.
    + exists "debug/". reflexivity.
Defined.

(** C6 in a world where nothing is installed: the installer is invoked
    once, before the server is started. *)
Lemma launchRuntime_fallback_witness :
  ∃ pre post,
    emitted (launchRuntime (host := linux_host) (world := world_nothing_installed))
      (fresh ∅) = pre ++ AReleaseTarballUrl :: post
    ∧ Forall (fun a => is_install a = false) pre
    ∧ Forall (fun a => is_server_spawn a = false) pre
    ∧ Forall (fun a => is_install a = false) post.
Proof.
  pose proof (launchRuntime_fallback (host := linux_host)
                (world := world_nothing_installed) (fresh ∅)) as H.
  cbv zeta in H. destruct H as (_ & _ & _ & H).
  assert (Hp : (fernspielapparatVersionOnPath (host := linux_host)
                  (world := world_nothing_installed) (fresh ∅)).1
               = Rejected (mkError
                   "No fernspielapparat on path, error: spawn fernspielapparat ENOENT")).
  { vm_compute. reflexivity. }
  rewrite Hp in H. destruct H as [_ H]. exact H.
Defined.

(** C7 on macOS: [process.env] is as before, and a key the overlay does
    not touch keeps its ambient value. *)
Lemma envForPlatform_preserves_ambient_witness :
  process_env (envForPlatform (host := mac_host)
                 (fresh {[ "HOME" := "/Users/u" ]})).2
    = {[ "HOME" := "/Users/u" ]}
  ∧ obj_of (envForPlatform (host := mac_host) (fresh {[ "HOME" := "/Users/u" ]})).2
      (envForPlatform (host := mac_host) (fresh {[ "HOME" := "/Users/u" ]})).1
      !! "HOME" = Some "/Users/u".
Proof.
  pose proof (envForPlatform_preserves_ambient (host := mac_host)
                (fresh {[ "HOME" := "/Users/u" ]})) as H.
  destruct (envForPlatform (host := mac_host) (fresh {[ "HOME" := "/Users/u" ]}))
    as [r s'].
  destruct H as (Hp & _ & _ & Hk). split; [exact Hp|].
  cbn [fst snd]. rewrite Hk; [reflexivity| |]; discriminate.
Defined.

(** C8 on macOS with a search path that does not name VLC: the default
    directory is appended after the existing value and the delimiter. *)
Lemma envForPlatform_overlay_witness :
  resolvedEnv (host := mac_host) (fresh {[ "DYLD_LIBRARY_PATH" := "/opt/lib" ]})
    !! "DYLD_LIBRARY_PATH"
  = Some "/opt/lib:/Applications/VLC.app/Contents/MacOS:/Applications/VLC.app/Contents/MacOS/lib".
Proof.
  destruct (envForPlatform_overlay (host := mac_host)
              (fresh {[ "DYLD_LIBRARY_PATH" := "/opt/lib" ]}))
    as (_ & Happend & _).
  destruct Happend as (pre & Henv & Hpre).
  { intros Hm. apply test_vlc_mentions in Hm. vm_compute in Hm. discriminate. }
  rewrite (Hpre "/opt/lib" eq_refl ltac:(discriminate)) in Henv. exact Henv.
Defined.

(** The premises of C5 hold in a world where the runtime prints
    "fernspielapparat 0.1.0" and exits with code 0: the probe resolves
    with "0.1.0" and the resolver yields the bare name. *)
Lemma version_probe_outcome_witness :
  version_child (World := world_on_path)
    = [StdoutData ("fernspielapparat 0.1.0" +:+ newline)]
        ++ ExitEvent (Some 0%Z) :: []
  ∧ (fernspielapparatVersionOnPath (host := linux_host) (world := world_on_path)
       (fresh ∅)).1 = Fulfilled "0.1.0"
  ∧ (getBinary (host := linux_host) (world := world_on_path) (fresh ∅)).1
    = Fulfilled "fernspielapparat".
Proof.
  assert (H : version_child (World := world_on_path)
              = [StdoutData ("fernspielapparat 0.1.0" +:+ newline)]
                  ++ ExitEvent (Some 0%Z) :: []) by reflexivity.
  split; [exact H|].
  destruct (version_probe_outcome (host := linux_host) (world := world_on_path)
              [StdoutData ("fernspielapparat 0.1.0" +:+ newline)] [] (Some 0%Z)
              (fresh ∅) H ltac:(repeat constructor))
    as (Hiff & _ & _ & _ & Hbare & _).
  assert (Hv : (fernspielapparatVersionOnPath (host := linux_host)
                  (world := world_on_path) (fresh ∅)).1 = Fulfilled "0.1.0").
  { apply Hiff. split; [reflexivity|].
    exists "fernspielapparat", ("0.1.0" +:+ newline). split; reflexivity. }
  split; [exact Hv|]. apply (Hbare "0.1.0" Hv).
Defined.

(** C5, as stated, fails: output with two white-space separated tokens
    is rejected when two spaces separate them, and output with a single
    token after a space resolves. *)
Lemma version_probe_splits_on_space :
  whitespaceTokens "fernspielapparat  0.1.0" = ["fernspielapparat"; "0.1.0"]
  ∧ (fernspielapparatVersionOnPath (host := linux_host) (world := world_two_spaces)
       (fresh ∅)).1
    = Rejected (mkError
        "Unexpected output from fernspielapparat runtime: fernspielapparat  0.1.0")
  ∧ whitespaceTokens " 0.1.0" = ["0.1.0"]
  ∧ (fernspielapparatVersionOnPath (host := linux_host) (world := world_leading_space)
       (fresh ∅)).1
    = Fulfilled "0.1.0".
Proof. repeat split; vm_compute; reflexivity. Qed.

(** C8, as stated, fails: a plugin directory variable that is set, to
    the empty string, is replaced by the default. *)
Lemma plugin_dir_set_when_empty :
  process_env (fresh {[ "VLC_PLUGIN_PATH" := "" ]}) !! "VLC_PLUGIN_PATH" = Some ""
  ∧ resolvedEnv (host := mac_host) (fresh {[ "VLC_PLUGIN_PATH" := "" ]})
      !! "VLC_PLUGIN_PATH"
    = Some "/Applications/VLC.app/Contents/MacOS/plugins".
Proof. split; vm_compute; reflexivity. Qed.

(** The premise of C9 holds for an archive with two builds under the
    same name: the later one is what the disk holds, and its path is the
    result. *)
Lemma extract_multiple_witness :
  damage (tarball (World := world_two_builds) "/tmp/fernspielapparat.tar.gz") = None
  ∧ disk (extractExecutableToUserDir (host := linux_host) (world := world_two_builds)
            "/tmp/fernspielapparat.tar.gz" (fresh ∅)).2
      !! "/home/u/.config/weichspielapparat/fernspielapparat"
    = Some "release build"
  ∧ (extractExecutableToUserDir (host := linux_host) (world := world_two_builds)
       "/tmp/fernspielapparat.tar.gz" (fresh ∅)).1
    = Fulfilled "/home/u/.config/weichspielapparat/fernspielapparat".
Proof.
  split; [reflexivity|].
  destruct (extract_multiple (host := linux_host) (world := world_two_builds)
              "/tmp/fernspielapparat.tar.gz" (fresh ∅) eq_refl)
    as (_ & _ & Hdisk & Hres).
  split.
  - apply (Hdisk "/home/u/.config/weichspielapparat/fernspielapparat"
             {| name := "release/fernspielapparat"; data := "release build" |}).
    vm_compute. reflexivity.
  - apply (Hres {| name := "release/fernspielapparat"; data := "release build" |}).
    vm_compute. reflexivity.
Defined.

(** C9, as stated, fails: two entries that match different names are
    written to two files, and the later does not overwrite the earlier. *)
Lemma extract_two_names_two_files :
  disk (extractExecutableToUserDir (host := linux_host) (world := world_both_names)
          "/tmp/fernspielapparat.tar.gz" (fresh ∅)).2
    !! "/home/u/.config/weichspielapparat/fernspielapparat" = Some "ELF"
  ∧ disk (extractExecutableToUserDir (host := linux_host) (world := world_both_names)
            "/tmp/fernspielapparat.tar.gz" (fresh ∅)).2
      !! "/home/u/.config/weichspielapparat/fernspielapparat.exe" = Some "MZ"
  ∧ (extractExecutableToUserDir (host := linux_host) (world := world_both_names)
       "/tmp/fernspielapparat.tar.gz" (fresh ∅)).1
    = Fulfilled "/home/u/.config/weichspielapparat/fernspielapparat.exe".
Proof. repeat split; vm_compute; reflexivity. Qed.

(** The premise of C10 holds in a world where the runtime prints
    "fernspielapparat 0.1.0" and a newline: the version has no newline
    at its end. *)
Lemma resolved_version_trimmed_witness :
  (fernspielapparatVersionOnPath (host := linux_host) (world := world_on_path)
     (fresh ∅)).1 = Fulfilled "0.1.0"
  ∧ (∀ u, "0.1.0" ≠ u +:+ newline).
Proof.
  assert (H : (fernspielapparatVersionOnPath (host := linux_host)
                 (world := world_on_path) (fresh ∅)).1 = Fulfilled "0.1.0").
  { vm_compute. reflexivity. }
  split; [exact H|].
  destruct (resolved_version_trimmed (host := linux_host) (world := world_on_path)
              (fresh ∅) "0.1.0" H) as (_ & _ & _ & Hnl).
  exact Hnl.
Defined.

(** ** Further launches *)


(** X9 after an install on Linux: the server is started in the install
    directory. *)
Lemma launchRuntime_server_cwd_witness :
  ASpawn "fernspielapparat" ["-vvvv"; "-s"]
    {| opt_env := Obj 1; opt_cwd := Some "/home/u/.config/weichspielapparat" |}
    ∈ emitted (launchRuntime (host := linux_host) (world := world_nothing_installed))
        (fresh ∅)
  ∧ "fernspielapparat" = executableName (host := linux_host)
  ∧ ∃ path, Some "/home/u/.config/weichspielapparat"
            = Some (dirname (Host := linux_host) path)
            ∧ (path = userBinaryPath (host := linux_host)
               ∨ ∃ tarPath e,
                   last (matching (host := linux_host)
                           (entries (tarball (World := world_nothing_installed) tarPath)))
                   = Some e
                   ∧ path = destination (host := linux_host) e).
Proof.
  assert (Hin : ASpawn "fernspielapparat" ["-vvvv"; "-s"]
                  {| opt_env := Obj 1;
                     opt_cwd := Some "/home/u/.config/weichspielapparat" |}
                ∈ emitted (launchRuntime (host := linux_host)
                             (world := world_nothing_installed)) (fresh ∅)).
  { apply list_elem_of_In. vm_compute.
    repeat (try (left; reflexivity); right). }
  split; [exact Hin|].
  destruct (launchRuntime_server_cwd (host := linux_host)
              (world := world_nothing_installed) (fresh ∅) _ _ Hin) as (Hcmd & _ & H).
  split; [exact Hcmd|].
  assert (Hp : (fernspielapparatVersionOnPath (host := linux_host)
                  (world := world_nothing_installed) (fresh ∅)).1
               = Rejected (mkError
                   "No fernspielapparat on path, error: spawn fernspielapparat ENOENT")).
  { vm_compute. reflexivity. }
  rewrite Hp in H. exact H.
Defined.

(** X10: without a binary and without access to the releases the launch is
    rejected with the error of the release lookup, and only the probe's
    child has been started. *)
Lemma launchRuntime_install_failure_witness :
  (getBinary (host := linux_host) (world := world_offline) (fresh ∅)).1
  = Rejected (mkError
      "Lacking execution permissions for runtime binary at: /home/u/.config/weichspielapparat/fernspielapparat, error: ENOENT: no such file or directory")
  ∧ (launchRuntime (host := linux_host) (world := world_offline) (fresh ∅)).1
    = Rejected (mkError "getaddrinfo ENOTFOUND api.github.com")
  ∧ children (launchRuntime (host := linux_host) (world := world_offline) (fresh ∅)).2
    = 1.
Proof.
  assert (Hg : (getBinary (host := linux_host) (world := world_offline) (fresh ∅)).1
               = Rejected (mkError
      "Lacking execution permissions for runtime binary at: /home/u/.config/weichspielapparat/fernspielapparat, error: ENOENT: no such file or directory"))
    by (vm_compute; reflexivity).
  split; [exact Hg|].
  assert (Hq : ∀ path,
             (downloadBinary (host := linux_host) (world := world_offline)
                (getBinary (host := linux_host) (world := world_offline) (fresh ∅)).2).1
             ≠ Fulfilled path).
  { intros path. vm_compute. intros H. discriminate H. }
  destruct (launchRuntime_install_failure (host := linux_host) (world := world_offline)
              (fresh ∅) _ Hg Hq) as (Hres & _ & Hc).
  split; [exact Hres|exact Hc].
Defined.

(** X12 when the probe's child cannot be started. *)
Lemma version_probe_spawn_error_witness :
  version_child (World := world_nothing_installed)
  = [] ++ ErrorEvent "spawn fernspielapparat ENOENT" :: []
  ∧ (fernspielapparatVersionOnPath (host := linux_host)
       (world := world_nothing_installed) (fresh ∅)).1
    = Rejected (mkError
        "No fernspielapparat on path, error: spawn fernspielapparat ENOENT").
Proof.
  split; [reflexivity|].
  apply (version_probe_spawn_error (host := linux_host)
           (world := world_nothing_installed) [] [] "spawn fernspielapparat ENOENT"
           (fresh ∅) eq_refl).
  constructor.
Defined.

(** X13: the error of a launch without access to the releases is the
    error of the release lookup. *)
Lemma launchRuntime_errors_witness :
  (launchRuntime (host := linux_host) (world := world_offline) (fresh ∅)).1
  = Rejected (mkError "getaddrinfo ENOTFOUND api.github.com")
  ∧ (release_url (World := world_offline)
     = Rejected (mkError "getaddrinfo ENOTFOUND api.github.com")
     ∨ (∃ url, release_url (World := world_offline) = Fulfilled url
               ∧ fetch_tarball (World := world_offline) url "fernspielapparat.tar.gz"
                 = Rejected (mkError "getaddrinfo ENOTFOUND api.github.com"))
     ∨ (∃ msg, mkError "getaddrinfo ENOTFOUND api.github.com"
               = mkError ("Failed to decompress release, error: " +:+ msg +:+ "."))
     ∨ mkError "getaddrinfo ENOTFOUND api.github.com"
       = mkError "Could not find executable in tarball"
     ∨ (∃ code, mkError "getaddrinfo ENOTFOUND api.github.com"
                = mkError ("fernspielapparat unexpected exit at startup with code "
                           +:+ code_to_string code))
     ∨ (∃ msg, mkError "getaddrinfo ENOTFOUND api.github.com"
               = mkError ("fernspielapparat could not be started, error: " +:+ msg))
     ∨ mkError "getaddrinfo ENOTFOUND api.github.com"
       = mkError
           "fernspielapparat server not available on port 38397 after 5 seconds, giving up.").
Proof.
  assert (H : (launchRuntime (host := linux_host) (world := world_offline) (fresh ∅)).1
              = Rejected (mkError "getaddrinfo ENOTFOUND api.github.com"))
    by (vm_compute; reflexivity).
  split; [exact H|].
  apply (launchRuntime_errors (host := linux_host) (world := world_offline)
           (fresh ∅) _ H).
Defined.

(** X15 on a truncated archive that holds the executable: the extraction is
    rejected, and the executable has been written. *)
Lemma extract_damaged_witness :
  damage (tarball (World := world_truncated_archive) "/tmp/fernspielapparat.tar.gz")
  = Some "unexpected end of file"
  ∧ (extractExecutableToUserDir (host := linux_host) (world := world_truncated_archive)
       "/tmp/fernspielapparat.tar.gz" (fresh ∅)).1
    = Rejected (mkError
        "Failed to decompress release, error: unexpected end of file.")
  ∧ disk (extractExecutableToUserDir (host := linux_host)
            (world := world_truncated_archive)
            "/tmp/fernspielapparat.tar.gz" (fresh ∅)).2
      !! "/home/u/.config/weichspielapparat/fernspielapparat"
    = Some "ELF".
Proof.
  split; [reflexivity|].
  destruct (extract_damaged (host := linux_host) (world := world_truncated_archive)
              "/tmp/fernspielapparat.tar.gz" "unexpected end of file" (fresh ∅)
              eq_refl ltac:(discriminate)) as (Hres & Hdisk & _).
  split; [exact Hres|]. rewrite Hdisk. vm_compute. reflexivity.
Defined.


(** X18 on Windows with only [ProgramFiles] set. *)
Lemma envForPlatform_win32_unset_path_witness :
  platform (Host := win_host) = "win32"
  ∧ resolvedEnv (host := win_host) (fresh (<["ProgramFiles" := "C:\Program Files"]> ∅))
      !! "Path"
    = Some "undefined;C:\Program Files\VideoLAN\VLC".
Proof.
  split; [reflexivity|].
  rewrite (envForPlatform_win32_unset_path (host := win_host)
             (fresh (<["ProgramFiles" := "C:\Program Files"]> ∅)) eq_refl).
  - vm_compute. reflexivity.
  - vm_compute. reflexivity.
Defined.

